(** * HUPnP core: SSDP discovery messages, HTTP server dispatch, action proxy

    A shallow embedding of
      - hupnp_core/ssdp/hdiscovery_messages.cpp   (the SSDP message classes),
      - hupnp_core/http/hhttp_server_p.cpp        (HHttpServer::processRequest
        and the process* member functions it dispatches to),
      - the action proxy declared in hclientaction_p.h / hactioninvoke_proxy_p.h,
    followed by the properties established about them.

    Integers of the C++ code (qint32, quint32) are values of [Z]; QString is
    [string]; the private d-pointer classes are records. *)

From Stdlib Require Import ZArith String Ascii List Bool Lia.
Import ListNotations.

Local Open Scope string_scope.
Local Open Scope list_scope.
Local Open Scope Z_scope.

(* ===================================================================== *)
(** ** The parts of Qt the code relies on *)
(* ===================================================================== *)

Module Qt.

(** [enum CaseSensitivity { CaseInsensitive, CaseSensitive }] of
    qnamespace.h: the enumerators are numbered from zero. *)
Inductive CaseSensitivity : Type :=
| CaseInsensitive
| CaseSensitive.

Definition enum_value (cs : CaseSensitivity) : Z :=
  match cs with
  | CaseInsensitive => 0
  | CaseSensitive => 1
  end.

(** Conversion of an integral value to the [bool] of an [if] condition. *)
Definition truthy (z : Z) : bool := negb (z =? 0).

(** The C++ comma operator: the left operand is evaluated and dropped. *)
Definition comma {A B : Type} (_ : A) (b : B) : B := b.

(** The upper-case letters of Latin-1: A-Z and, but for the multiplication
    sign, the range from A-grave to Thorn.  A QString of the model holds
    Latin-1 characters. *)
Definition is_upper (c : ascii) : bool :=
  let n := nat_of_ascii c in
  (((65 <=? n) && (n <=? 90))
   || ((192 <=? n) && (n <=? 222) && negb (n =? 215)))%nat.

Definition toLower_char (c : ascii) : ascii :=
  if is_upper c then ascii_of_nat (nat_of_ascii c + 32) else c.

(** [QString::toLower] *)
Fixpoint toLower (s : string) : string :=
  match s with
  | EmptyString => EmptyString
  | String c s' => String (toLower_char c) (toLower s')
  end.

(** With Qt::CaseInsensitive the characters are case folded, that is
    lower-cased, before they are compared. *)
Definition fold_case (cs : CaseSensitivity) (s : string) : string :=
  match cs with
  | CaseInsensitive => toLower s
  | CaseSensitive => s
  end.

(** [QString::compare(other, cs)]: negative, zero or positive. *)
Definition compare (s other : string) (cs : CaseSensitivity) : Z :=
  match String.compare (fold_case cs s) (fold_case cs other) with
  | Eq => 0
  | Lt => -1
  | Gt => 1
  end.

Definition isEmpty (s : string) : bool :=
  match s with
  | EmptyString => true
  | String _ _ => false
  end.

(** [QString::indexOf(ch)]: position of the first occurrence, or -1. *)
Fixpoint indexOf (s : string) (ch : ascii) : Z :=
  match s with
  | EmptyString => -1
  | String c s' =>
      if Ascii.eqb c ch then 0
      else let i := indexOf s' ch in if i <? 0 then -1 else i + 1
  end.

Fixpoint drop (n : nat) (s : string) : string :=
  match n, s with
  | O, _ => s
  | S _, EmptyString => EmptyString
  | S n', String _ s' => drop n' s'
  end.

(** [QString::mid(position)]: the tail starting at [position]; the null
    string when [position] is past the end; a negative [position] counts
    as zero. *)
Definition mid (s : string) (position : Z) : string :=
  drop (Z.to_nat position) s.

(** [QChar::isSpace]: the characters 9 to 13 and the space separators. *)
Definition isSpace (c : ascii) : bool :=
  let n := nat_of_ascii c in
  ((n =? 32) || ((9 <=? n) && (n <=? 13)) || (n =? 160))%nat.

(** [QString::simplified] as a scan: [pending] records that whitespace was
    seen after some output, [started] that some output exists. *)
Fixpoint simplified_from (s : string) (started pending : bool) : string :=
  match s with
  | EmptyString => EmptyString
  | String c s' =>
      if isSpace c then simplified_from s' started started
      else if pending
           then String " "%char (String c (simplified_from s' true false))
           else String c (simplified_from s' true false)
  end.

Definition simplified (s : string) : string := simplified_from s false false.

(** The qint32 an integer is converted to (two's complement, 32 bits). *)
Definition to_qint32 (z : Z) : Z := (z + 2 ^ 31) mod 2 ^ 32 - 2 ^ 31.

(** QUrl, as far as the messages look at it. *)
Record QUrl : Type := mkQUrl {
  url_isValid : bool;
  url_text : string
}.

Definition QUrl_default : QUrl := mkQUrl false "".

Definition url_isEmpty (u : QUrl) : bool := isEmpty (url_text u).

Definition QUrl_eqb (a b : QUrl) : bool :=
  Bool.eqb (url_isValid a) (url_isValid b)
  && String.eqb (url_text a) (url_text b).

End Qt.

(* ===================================================================== *)
(** ** Data elements used by the SSDP messages *)
(* ===================================================================== *)

(** Modelled from the spec: HDiscoveryType (hdiscoverytype.h is not part of
    the sources at hand).  Section 3 of the specification gives the variant
    tags; the payload is the UDN and the resource type in their string form.
    A default-constructed value has the tag [Undefined]. *)
Module HDiscoveryType.

Inductive Type_ : Type :=
| Undefined
| RootDevice
| SpecificDevice
| DeviceType
| ServiceType.

Record t : Type := mk {
  type : Type_;
  udn : string;
  resourceType : string
}.

Definition default : t := mk Undefined "" "".

Definition Type_eqb (a b : Type_) : bool :=
  match a, b with
  | Undefined, Undefined
  | RootDevice, RootDevice
  | SpecificDevice, SpecificDevice
  | DeviceType, DeviceType
  | ServiceType, ServiceType => true
  | _, _ => false
  end.

Definition eqb (a b : t) : bool :=
  Type_eqb (type a) (type b)
  && String.eqb (udn a) (udn b)
  && String.eqb (resourceType a) (resourceType b).

End HDiscoveryType.

(** Modelled from the spec: HProductTokens (hproduct_tokens.h is not part of
    the sources at hand).  Of the three tokens the messages read only the
    strict validity and the minor version of the UPnP token ("UPnP/1.x"). *)
Module HProductTokens.

Record t : Type := mk {
  isValid : bool;
  upnpToken_minorVersion : Z;
  toString : string
}.

Definition default : t := mk false (-1) "".

Definition eqb (a b : t) : bool :=
  Bool.eqb (isValid a) (isValid b)
  && (upnpToken_minorVersion a =? upnpToken_minorVersion b)
  && String.eqb (toString a) (toString b).

End HProductTokens.

(** Modelled from the spec: HEndpoint, "IPv4 address + UDP/TCP port". *)
Module HEndpoint.

Record t : Type := mk {
  hostAddress : string;
  portNumber : Z
}.

Definition default : t := mk "" 0.

Definition eqb (a b : t) : bool :=
  String.eqb (hostAddress a) (hostAddress b)
  && (portNumber a =? portNumber b).

End HEndpoint.

(* ===================================================================== *)
(** ** hdiscovery_messages.cpp *)
(* ===================================================================== *)

(** ssdp:alive *)
Module HResourceAvailable.

(** class HResourceAvailablePrivate *)
Record Private : Type := mkPrivate {
  m_serverTokens : HProductTokens.t;
  m_usn : HDiscoveryType.t;
  m_location : Qt.QUrl;
  m_cacheControlMaxAge : Z;
  m_bootId : Z;
  m_configId : Z;
  m_searchPort : Z
}.

(** HResourceAvailablePrivate::HResourceAvailablePrivate() *)
Definition default : Private :=
  mkPrivate HProductTokens.default HDiscoveryType.default Qt.QUrl_default
            0 0 0 0.

(** HResourceAvailable::HResourceAvailable(cacheControlMaxAge, location,
    serverTokens, usn, bootId, configId, searchPort).  The first argument
    is a quint32, the stored field a qint32. *)
Definition new (cacheControlMaxAge : Z) (location : Qt.QUrl)
    (serverTokens : HProductTokens.t) (usn : HDiscoveryType.t)
    (bootId configId searchPort : Z) : Private :=
  let cacheControlMaxAge :=
    if cacheControlMaxAge <? 5 then 5
    else if cacheControlMaxAge >? 60 * 60 * 24 then 60 * 60 * 24
    else cacheControlMaxAge in
  if HDiscoveryType.Type_eqb (HDiscoveryType.type usn)
                             HDiscoveryType.Undefined
  then default
  else if negb (Qt.url_isValid location) || Qt.url_isEmpty location
  then default
  else
    let assign (searchPort : Z) :=
      mkPrivate serverTokens usn location
                (Qt.to_qint32 cacheControlMaxAge) bootId configId
                searchPort in
    if HProductTokens.upnpToken_minorVersion serverTokens >? 0 then
      if (bootId <? 0) || (configId <? 0) then default
      else if (searchPort <? 49152) || (searchPort >? 65535)
      then assign (-1)
      else assign searchPort
    else assign (-1).

Definition isValid (o : Private) (strict : bool) : bool :=
  negb (HDiscoveryType.Type_eqb (HDiscoveryType.type (m_usn o))
                                HDiscoveryType.Undefined)
  && (if strict then HProductTokens.isValid (m_serverTokens o) else true).

Definition serverTokens (o : Private) := m_serverTokens o.
Definition usn (o : Private) := m_usn o.
Definition location (o : Private) := m_location o.
Definition cacheControlMaxAge (o : Private) : Z := m_cacheControlMaxAge o.
Definition bootId (o : Private) : Z := m_bootId o.
Definition configId (o : Private) : Z := m_configId o.
Definition searchPort (o : Private) : Z := m_searchPort o.

(** operator== *)
Definition eqb (obj1 obj2 : Private) : bool :=
  HProductTokens.eqb (m_serverTokens obj1) (m_serverTokens obj2)
  && HDiscoveryType.eqb (m_usn obj1) (m_usn obj2)
  && Qt.QUrl_eqb (m_location obj1) (m_location obj2)
  && (m_cacheControlMaxAge obj1 =? m_cacheControlMaxAge obj2)
  && (m_bootId obj1 =? m_bootId obj2)
  && (m_configId obj1 =? m_configId obj2)
  && (m_searchPort obj1 =? m_searchPort obj2).

End HResourceAvailable.

(** ssdp:byebye *)
Module HResourceUnavailable.

(** class HResourceUnavailablePrivate *)
Record Private : Type := mkPrivate {
  m_usn : HDiscoveryType.t;
  m_bootId : Z;
  m_configId : Z;
  m_sourceLocation : HEndpoint.t
}.

Definition default : Private :=
  mkPrivate HDiscoveryType.default 0 0 HEndpoint.default.

(** HResourceUnavailable::HResourceUnavailable(usn, sourceLocation,
    bootId, configId) *)
Definition new (usn : HDiscoveryType.t) (sourceLocation : HEndpoint.t)
    (bootId configId : Z) : Private :=
  if HDiscoveryType.Type_eqb (HDiscoveryType.type usn)
                             HDiscoveryType.Undefined
  then default
  else if ((bootId <? 0) && (configId >=? 0))
          || ((configId <? 0) && (bootId >=? 0))
  then default
  else
    if bootId <? 0
    then mkPrivate usn (-1) (-1) sourceLocation
    else mkPrivate usn bootId configId sourceLocation.

Definition location (o : Private) := m_sourceLocation o.

Definition isValid (o : Private) (strict : bool) : bool :=
  negb (HDiscoveryType.Type_eqb (HDiscoveryType.type (m_usn o))
                                HDiscoveryType.Undefined).

Definition usn (o : Private) := m_usn o.
Definition bootId (o : Private) : Z := m_bootId o.
Definition configId (o : Private) : Z := m_configId o.

(** operator== *)
Definition eqb (obj1 obj2 : Private) : bool :=
  HDiscoveryType.eqb (m_usn obj1) (m_usn obj2)
  && HEndpoint.eqb (m_sourceLocation obj1) (m_sourceLocation obj2)
  && (m_bootId obj1 =? m_bootId obj2)
  && (m_configId obj1 =? m_configId obj2).

End HResourceUnavailable.

(** ssdp:update *)
Module HResourceUpdate.

(** class HResourceUpdatePrivate *)
Record Private : Type := mkPrivate {
  m_usn : HDiscoveryType.t;
  m_location : Qt.QUrl;
  m_bootId : Z;
  m_configId : Z;
  m_nextBootId : Z;
  m_searchPort : Z
}.

Definition default : Private :=
  mkPrivate HDiscoveryType.default Qt.QUrl_default 0 0 0 0.

(** HResourceUpdate::HResourceUpdate(location, usn, bootId, configId,
    nextBootId, searchPort) *)
Definition new (location : Qt.QUrl) (usn : HDiscoveryType.t)
    (bootId configId nextBootId searchPort : Z) : Private :=
  if HDiscoveryType.Type_eqb (HDiscoveryType.type usn)
                             HDiscoveryType.Undefined
  then default
  else if negb (Qt.url_isValid location)
  then default
  else if ((bootId <? 0) && ((configId >=? 0) || (nextBootId >=? 0)))
          || ((configId <? 0) && ((bootId >=? 0) || (nextBootId >=? 0)))
          || ((nextBootId <? 0) && ((bootId >=? 0) || (configId >=? 0)))
  then default
  else
    if bootId <? 0
    then mkPrivate usn location (-1) (-1) (-1) (-1)
    else if (searchPort <? 49152) || (searchPort >? 65535)
    then mkPrivate usn location bootId configId nextBootId (-1)
    else mkPrivate usn location bootId configId nextBootId searchPort.

Definition isValid (o : Private) (strict : bool) : bool :=
  negb (HDiscoveryType.Type_eqb (HDiscoveryType.type (m_usn o))
                                HDiscoveryType.Undefined).

Definition usn (o : Private) := m_usn o.
Definition location (o : Private) := m_location o.
Definition bootId (o : Private) : Z := m_bootId o.
Definition configId (o : Private) : Z := m_configId o.
Definition nextBootId (o : Private) : Z := m_nextBootId o.
Definition searchPort (o : Private) : Z := m_searchPort o.

(** operator==: the source compares five of the six fields. *)
Definition eqb (obj1 obj2 : Private) : bool :=
  HDiscoveryType.eqb (m_usn obj1) (m_usn obj2)
  && Qt.QUrl_eqb (m_location obj1) (m_location obj2)
  && (m_bootId obj1 =? m_bootId obj2)
  && (m_configId obj1 =? m_configId obj2)
  && (m_searchPort obj1 =? m_searchPort obj2).

End HResourceUpdate.

(** M-SEARCH *)
Module HDiscoveryRequest.

(** class HDiscoveryRequestPrivate *)
Record Private : Type := mkPrivate {
  m_st : HDiscoveryType.t;
  m_mx : Z;
  m_userAgent : HProductTokens.t
}.

Definition default : Private :=
  mkPrivate HDiscoveryType.default 0 HProductTokens.default.

(** HDiscoveryRequestPrivate::init, run on a default-constructed object:
    the returned pair is the [bool] result and the object afterwards. *)
Definition init (self : Private) (st : HDiscoveryType.t) (mx : Z)
    (userAgent : HProductTokens.t) : bool * Private :=
  if HDiscoveryType.Type_eqb (HDiscoveryType.type st)
                             HDiscoveryType.Undefined
  then (false, self)
  else if mx <? 1 then (false, self)
  else
    let mx := if mx >? 5 then 5 else mx in
    (true, mkPrivate st mx userAgent).

(** HDiscoveryRequest::HDiscoveryRequest(mx, st, userAgent): the result of
    [init] is dropped. *)
Definition new (mx : Z) (st : HDiscoveryType.t)
    (userAgent : HProductTokens.t) : Private :=
  snd (init default st mx userAgent).

Definition isValid (o : Private) (strict : bool) : bool :=
  negb (HDiscoveryType.Type_eqb (HDiscoveryType.type (m_st o))
                                HDiscoveryType.Undefined)
  && (if strict then HProductTokens.isValid (m_userAgent o) else true).

Definition searchTarget (o : Private) := m_st o.
Definition mx (o : Private) : Z := m_mx o.
Definition userAgent (o : Private) := m_userAgent o.

(** operator== *)
Definition eqb (obj1 obj2 : Private) : bool :=
  (m_mx obj1 =? m_mx obj2)
  && HDiscoveryType.eqb (m_st obj1) (m_st obj2)
  && HProductTokens.eqb (m_userAgent obj1) (m_userAgent obj2).

End HDiscoveryRequest.

(** Response to an M-SEARCH *)
Module HDiscoveryResponse.

(** class HDiscoveryResponsePrivate; [m_date] is [None] for the null
    QDateTime. *)
Record Private : Type := mkPrivate {
  m_serverTokens : HProductTokens.t;
  m_usn : HDiscoveryType.t;
  m_location : Qt.QUrl;
  m_date : option Z;
  m_cacheControlMaxAge : Z;
  m_bootId : Z;
  m_configId : Z;
  m_searchPort : Z
}.

Definition default : Private :=
  mkPrivate HProductTokens.default HDiscoveryType.default Qt.QUrl_default
            None 0 0 0 0.

(** HDiscoveryResponse::HDiscoveryResponse(cacheControlMaxAge, date,
    location, serverTokens, usn, bootId, configId, searchPort).  The date
    argument is unnamed in the source; [currentDateTime] stands for
    QDateTime::currentDateTime(). *)
Definition new (currentDateTime : Z) (cacheControlMaxAge : Z) (date : Z)
    (location : Qt.QUrl) (serverTokens : HProductTokens.t)
    (usn : HDiscoveryType.t) (bootId configId searchPort : Z) : Private :=
  let cacheControlMaxAge :=
    if cacheControlMaxAge <? 5 then 5
    else if cacheControlMaxAge >? 60 * 60 * 24 then 60 * 60 * 24
    else cacheControlMaxAge in
  if HDiscoveryType.Type_eqb (HDiscoveryType.type usn)
                             HDiscoveryType.Undefined
  then default
  else if negb (Qt.url_isValid location)
  then default
  else
    let assign :=
      mkPrivate serverTokens usn location (Some currentDateTime)
                (Qt.to_qint32 cacheControlMaxAge) bootId configId
                searchPort in
    if HProductTokens.upnpToken_minorVersion serverTokens >? 0 then
      if (bootId <? 0) || (configId <? 0) then default
      else assign
    else assign.

Definition isValid (o : Private) (strict : bool) : bool :=
  negb (HDiscoveryType.Type_eqb (HDiscoveryType.type (m_usn o))
                                HDiscoveryType.Undefined)
  && (if strict then HProductTokens.isValid (m_serverTokens o) else true).

Definition serverTokens (o : Private) := m_serverTokens o.
Definition date (o : Private) := m_date o.
Definition usn (o : Private) := m_usn o.
Definition location (o : Private) := m_location o.
Definition cacheControlMaxAge (o : Private) : Z := m_cacheControlMaxAge o.
Definition bootId (o : Private) : Z := m_bootId o.
Definition configId (o : Private) : Z := m_configId o.
Definition searchPort (o : Private) : Z := m_searchPort o.

(** operator==: the date is left out of the comparison. *)
Definition eqb (obj1 obj2 : Private) : bool :=
  HProductTokens.eqb (m_serverTokens obj1) (m_serverTokens obj2)
  && HDiscoveryType.eqb (m_usn obj1) (m_usn obj2)
  && Qt.QUrl_eqb (m_location obj1) (m_location obj2)
  && (m_cacheControlMaxAge obj1 =? m_cacheControlMaxAge obj2)
  && (m_bootId obj1 =? m_bootId obj2)
  && (m_configId obj1 =? m_configId obj2)
  && (m_searchPort obj1 =? m_searchPort obj2).

End HDiscoveryResponse.

(* ===================================================================== *)
(** ** hhttp_server_p.cpp *)
(* ===================================================================== *)

Module HHttpHandler.

(** HHttpHandler::ReturnValue: the server tells [Success] and [Timeout]
    apart from every other code. *)
Inductive ReturnValue : Type :=
| Success
| Timeout
| Failure.

End HHttpHandler.

Module HHttpServer.

Import HHttpHandler.

(** Status codes handed to HHttpHandler::send; the identifiers are the
    source's. *)
Inductive StatusCode : Type :=
| BadRequest
| MethotNotAllowed
| OtherStatus (code : Z).

Record QHttpRequestHeader : Type := mkHeader {
  isValid : bool;
  method : string;
  path : string;
  values : list (string * string)
}.

(** QHttpHeader::value(key): the value of the first field whose
    lower-cased name is the lower-cased [key], the empty string if none. *)
Fixpoint lookup (key : string) (l : list (string * string)) : string :=
  match l with
  | [] => ""
  | (k, v) :: l' =>
      if String.eqb (Qt.toLower k) (Qt.toLower key) then v
      else lookup key l'
  end.

Definition value (h : QHttpRequestHeader) (key : string) : string :=
  lookup key (values h).

Record MessagingInfo : Type := mkMessagingInfo {
  hostInfo : string;
  keepAlive : bool
}.

Definition setHostInfo (mi : MessagingInfo) (host : string) :=
  mkMessagingInfo host (keepAlive mi).

Definition setKeepAlive (mi : MessagingInfo) (arg : bool) :=
  mkMessagingInfo (hostInfo mi) arg.

(** The virtual member functions a derived server overrides. *)
Inductive Incoming : Type :=
| incomingSubscriptionRequest
| incomingUnsubscriptionRequest
| incomingControlRequest
| incomingNotifyMessage
| incomingUnknownHeadRequest
| incomingUnknownGetRequest
| incomingUnknownPostRequest.

(** What one connection does, in order. *)
Inductive Event : Type :=
| Sent (sc : StatusCode)
| Called (h : Incoming)
| Disconnected.

(** The collaborators whose code lies outside the server:
    - [keepAliveOf]: HHttpUtils::keepAlive(requestHeader);
    - [sendResult]: the code HHttpHandler::send returns;
    - [setContent]: QtSoapMessage::setContent(body);
    - [receiveSubscribe], [receiveUnsubscribe], [receiveNotify]: the
      HHttpHandler::receive overloads that parse a GENA request; they are
      handed the messaging info by reference and give the responses they
      sent themselves, their return code, whether the parsed request is a
      [Success], and the messaging info as they leave it;
    - [incoming]: the overriding virtual function; it gives the responses
      it sent and the messaging info afterwards, [None] when it threw an
      HException. *)
Record Env : Type := mkEnv {
  keepAliveOf : QHttpRequestHeader -> bool;
  sendResult : StatusCode -> ReturnValue;
  setContent : string -> bool;
  receiveSubscribe :
    QHttpRequestHeader -> MessagingInfo ->
    list StatusCode * ReturnValue * bool * MessagingInfo;
  receiveUnsubscribe :
    QHttpRequestHeader -> MessagingInfo ->
    list StatusCode * ReturnValue * bool * MessagingInfo;
  receiveNotify :
    QHttpRequestHeader -> string -> MessagingInfo ->
    list StatusCode * ReturnValue * bool * MessagingInfo;
  incoming :
    Incoming -> QHttpRequestHeader -> MessagingInfo ->
    list StatusCode * option MessagingInfo
}.

(** Handler code threads the MessagingInfo, logs events and may throw. *)
Definition M (A : Type) : Type :=
  MessagingInfo -> list Event * option (A * MessagingInfo).

Definition ret {A : Type} (a : A) : M A :=
  fun mi => ([], Some (a, mi)).

Definition bind {A B : Type} (m : M A) (k : A -> M B) : M B :=
  fun mi =>
    match m mi with
    | (evs, None) => (evs, None)
    | (evs, Some (a, mi')) =>
        let (evs', r) := k a mi' in (evs ++ evs', r)
    end.

Notation "m ;;; k" := (bind m (fun _ => k))
  (at level 61, right associativity).

Section WithEnv.

Variable env : Env.

(** m_httpHandler.send(mi, sc) *)
Definition send (sc : StatusCode) : M ReturnValue :=
  fun mi => ([Sent sc], Some (sendResult env sc, mi)).

(** mi.setKeepAlive(arg) *)
Definition mi_setKeepAlive (arg : bool) : M unit :=
  fun mi => ([], Some (tt, setKeepAlive mi arg)).

(** A call of HHttpHandler::receive for a GENA request: the responses it
    sent are logged, its return code and the parse result are handed on,
    and the messaging info becomes what the call left. *)
Definition receive_gena
    (receive : MessagingInfo ->
               list StatusCode * ReturnValue * bool * MessagingInfo)
  : M (ReturnValue * bool) :=
  fun mi =>
    let '(scs, rv, parsed, mi') := receive mi in
    (map Sent scs, Some ((rv, parsed), mi')).

(** A call of one of the virtual functions. *)
Definition call (h : Incoming) (hdr : QHttpRequestHeader) : M unit :=
  fun mi =>
    match incoming env h hdr mi with
    | (scs, None) => (Called h :: map Sent scs, None)
    | (scs, Some mi') => (Called h :: map Sent scs, Some (tt, mi'))
    end.

(** The default implementation every incoming* function has in
    HHttpServer itself. *)
Definition incoming_default : M unit :=
  mi_setKeepAlive false ;;; send MethotNotAllowed ;;; ret tt.

Definition processGet (requestHdr : QHttpRequestHeader)
  : M ReturnValue :=
  call incomingUnknownGetRequest requestHdr ;;; ret Success.

Definition processHead (requestHdr : QHttpRequestHeader)
  : M ReturnValue :=
  call incomingUnknownHeadRequest requestHdr ;;; ret Success.

Definition processPost (requestHdr : QHttpRequestHeader)
    (body : string) : M ReturnValue :=
  let soapAction := value requestHdr "SOAPACTION" in
  if Qt.indexOf soapAction "#"%char <=? 0 then
    call incomingUnknownPostRequest requestHdr ;;; ret Success
  else
    let actionName := Qt.mid soapAction (Qt.indexOf soapAction "#"%char) in
    if Qt.isEmpty actionName then
      call incomingUnknownPostRequest requestHdr ;;; ret Success
    else if negb (setContent env body) then
      mi_setKeepAlive false ;;; send BadRequest
    else
      let controlUrl := Qt.simplified (path requestHdr) in
      if Qt.isEmpty controlUrl then
        mi_setKeepAlive false ;;; send BadRequest
      else
        call incomingControlRequest requestHdr ;;; ret Success.

Definition processSubscription (requestHdr : QHttpRequestHeader)
  : M ReturnValue :=
  bind (receive_gena (receiveSubscribe env requestHdr))
       (fun '(rv, subscrRv) =>
          match rv with
          | Success =>
              (if subscrRv
               then call incomingSubscriptionRequest requestHdr
               else ret tt) ;;;
              ret Success
          | _ => ret rv
          end).

Definition processUnsubscription (requestHdr : QHttpRequestHeader)
  : M ReturnValue :=
  bind (receive_gena (receiveUnsubscribe env requestHdr))
       (fun '(rv, unsubsRv) =>
          match rv with
          | Success =>
              (if unsubsRv
               then call incomingUnsubscriptionRequest requestHdr
               else ret tt) ;;;
              ret Success
          | _ => ret rv
          end).

Definition processNotifyMessage (request : QHttpRequestHeader)
    (body : string) : M ReturnValue :=
  bind (receive_gena (receiveNotify env request body))
       (fun '(rv, notifyRv) =>
          match rv with
          | Success =>
              (if notifyRv
               then call incomingNotifyMessage request
               else ret tt) ;;;
              ret Success
          | _ => ret rv
          end).

(** The condition of the second branch of the method test, as the
    source has it: [method.compare("HEAD"), Qt::CaseInsensitive].  The
    one-argument compare is case sensitive; its result is the left
    operand of a comma. *)
Definition head_condition (method : string) : bool :=
  Qt.truthy
    (Qt.comma (Qt.compare method "HEAD" Qt.CaseSensitive)
              (Qt.enum_value Qt.CaseInsensitive)).

(** The body of the try block of processRequest.  The result is [true]
    when the last branch asked for a [break]. *)
Definition dispatch (requestHeader : QHttpRequestHeader)
    (body : string) : M bool :=
  let method := method requestHeader in
  if Qt.compare method "GET" Qt.CaseInsensitive =? 0 then
    processGet requestHeader ;;; ret false
  else if head_condition method then
    processHead requestHeader ;;; ret false
  else if Qt.compare method "POST" Qt.CaseInsensitive =? 0 then
    processPost requestHeader body ;;; ret false
  else if Qt.compare method "NOTIFY" Qt.CaseInsensitive =? 0 then
    processNotifyMessage requestHeader body ;;; ret false
  else if Qt.compare method "SUBSCRIBE" Qt.CaseInsensitive =? 0 then
    processSubscription requestHeader ;;; ret false
  else if Qt.compare method "UNSUBSCRIBE" Qt.CaseInsensitive =? 0 then
    processUnsubscription requestHeader ;;; ret false
  else
    send MethotNotAllowed ;;; ret true.

(** What the environment shows during one turn of the while loop. *)
Record Round : Type := mkRound {
  exiting_at_guard : bool;       (* m_exiting in the loop condition *)
  connected : bool;              (* client.state() == ConnectedState *)
  elapsed : Z;                   (* stopWatch.elapsed() *)
  rv : ReturnValue;              (* m_httpHandler.receive(...) *)
  requestHeader : QHttpRequestHeader;
  body : string;
  exiting_after_receive : bool   (* m_exiting before the try block *)
}.

Definition guard (r : Round) : bool :=
  negb (exiting_at_guard r) && connected r && (elapsed r <? 30000).

Inductive Control : Type :=
| LoopAgain      (* continue, or the end of the body *)
| LoopBreak.

(** The body of the while loop. *)
Definition iteration (r : Round) : list Event * Control :=
  let mi := mkMessagingInfo "" false in
  match rv r with
  | Timeout => ([], LoopAgain)
  | Failure => ([], LoopBreak)
  | Success =>
      if negb (isValid (requestHeader r)) then
        ([Sent BadRequest], LoopBreak)
      else
        let host := value (requestHeader r) "HOST" in
        if Qt.isEmpty host then ([Sent BadRequest], LoopBreak)
        else
          let mi := setHostInfo mi host in
          let mi := setKeepAlive mi (keepAliveOf env (requestHeader r)) in
          if exiting_after_receive r then ([], LoopBreak)
          else
            match dispatch (requestHeader r) (body r) mi with
            | (evs, None) => (evs, LoopBreak)          (* catch *)
            | (evs, Some (true, _)) => (evs, LoopBreak)
            | (evs, Some (false, mi')) =>
                if negb (keepAlive mi') then (evs, LoopBreak)
                else (evs, LoopAgain)
            end
  end.

(** The while loop over the turns the environment offers.  The result
    holds the events and the turns that were not entered.  An exhausted
    list stands for a loop condition that no longer holds. *)
Fixpoint loop (rounds : list Round) : list Event * list Round :=
  match rounds with
  | [] => ([], [])
  | r :: rest =>
      if guard r then
        match iteration r with
        | (evs, LoopBreak) => (evs, rest)
        | (evs, LoopAgain) =>
            let (evs', left) := loop rest in (evs ++ evs', left)
        end
      else ([], r :: rest)
  end.

(** What processRequest does once the loop is left: a socket that is still
    connected is flushed and disconnected. *)
Definition closing (connectedAfterLoop : bool) : list Event :=
  if connectedAfterLoop then [Disconnected] else [].

(** HHttpServer::processRequest.  [connectedAfterLoop] is
    client.state() == ConnectedState once the loop is left. *)
Definition processRequest (rounds : list Round)
    (connectedAfterLoop : bool) : list Event * list Round :=
  let (evs, left) := loop rounds in
  (evs ++ closing connectedAfterLoop, left).

(** A turn after which the loop goes on: its condition holds and its
    body ends without a break. *)
Definition goes_on (r : Round) : bool :=
  guard r
  && match snd (iteration r) with
     | LoopAgain => true
     | LoopBreak => false
     end.

(** The events of a run of turns that all go on. *)
Definition events_of (rounds : list Round) : list Event :=
  flat_map (fun r => fst (iteration r)) rounds.

(** The turn reads a request: the loop condition holds and receive
    gives Success. *)
Definition reads_request (r : Round) : Prop :=
  guard r = true /\ rv r = Success.

(** The start line is well-formed and a HOST header is present. *)
Definition well_formed_with_host (h : QHttpRequestHeader) : Prop :=
  isValid h = true /\ Qt.isEmpty (value h "HOST") = false.

End WithEnv.

(** An HHttpServer that overrides nothing: every incoming* function is
    the default one, sends succeed and GENA requests parse. *)
Definition baseEnv : Env :=
  mkEnv (fun _ => true)
        (fun _ => Success)
        (fun _ => true)
        (fun _ mi => ([], Success, true, mi))
        (fun _ mi => ([], Success, true, mi))
        (fun _ _ mi => ([], Success, true, mi))
        (fun _ _ mi => ([MethotNotAllowed], Some (setKeepAlive mi false))).

(** The member functions a request can be routed to. *)
Inductive Handler : Type :=
| GetHandler
| HeadHandler
| PostHandler
| NotifyHandler
| SubscribeHandler
| UnsubscribeHandler.

(** The branch the try block of processRequest takes; [None] is the last
    one. *)
Definition code_route (method : string) : option Handler :=
  if Qt.compare method "GET" Qt.CaseInsensitive =? 0 then Some GetHandler
  else if head_condition method then Some HeadHandler
  else if Qt.compare method "POST" Qt.CaseInsensitive =? 0
  then Some PostHandler
  else if Qt.compare method "NOTIFY" Qt.CaseInsensitive =? 0
  then Some NotifyHandler
  else if Qt.compare method "SUBSCRIBE" Qt.CaseInsensitive =? 0
  then Some SubscribeHandler
  else if Qt.compare method "UNSUBSCRIBE" Qt.CaseInsensitive =? 0
  then Some UnsubscribeHandler
  else None.

(** The messaging info processRequest holds when it enters the try block:
    host and keep-alive are set from the request. *)
Definition prepared (env : Env) (r : Round) : MessagingInfo :=
  setKeepAlive
    (setHostInfo (mkMessagingInfo "" false) (value (requestHeader r) "HOST"))
    (keepAliveOf env (requestHeader r)).

(** The request of the turn gets as far as the try block. *)
Definition enters_try (r : Round) : Prop :=
  reads_request r
  /\ well_formed_with_host (requestHeader r)
  /\ exiting_after_receive r = false.

(** The default implementation of the incoming* functions (keep-alive off,
    405 sent), as the value a hook of [Env] has when it is not overridden. *)
Definition not_overridden (env : Env) (h : Incoming) : Prop :=
  forall hdr mi,
    incoming env h hdr mi = ([MethotNotAllowed], Some (setKeepAlive mi false)).

Definition Incoming_eqb (a b : Incoming) : bool :=
  match a, b with
  | incomingSubscriptionRequest, incomingSubscriptionRequest
  | incomingUnsubscriptionRequest, incomingUnsubscriptionRequest
  | incomingControlRequest, incomingControlRequest
  | incomingNotifyMessage, incomingNotifyMessage
  | incomingUnknownHeadRequest, incomingUnknownHeadRequest
  | incomingUnknownGetRequest, incomingUnknownGetRequest
  | incomingUnknownPostRequest, incomingUnknownPostRequest => true
  | _, _ => false
  end.

(** Reading the log: is the event a call, a call of [h], a response? *)
Definition is_call (e : Event) : bool :=
  match e with
  | Called _ => true
  | _ => false
  end.

Definition is_call_of (h : Incoming) (e : Event) : bool :=
  match e with
  | Called h' => Incoming_eqb h h'
  | _ => false
  end.

Definition is_response (e : Event) : bool :=
  match e with
  | Sent _ => true
  | _ => false
  end.

(** The number of virtual functions called in a log. *)
Definition calls (evs : list Event) : nat :=
  List.length (filter is_call evs).

(** The method test of processRequest for [name]. *)
Definition is_method (hdr : QHttpRequestHeader) (name : string) : Prop :=
  (Qt.compare (method hdr) name Qt.CaseInsensitive =? 0) = true.

(** What processRequest and the process* function on the way have tested
    of a request when they call [h]; [mi] is the messaging info the try
    block is entered with. *)
Definition tested_before (env : Env) (h : Incoming)
    (hdr : QHttpRequestHeader) (body : string) (mi : MessagingInfo)
  : Prop :=
  match h with
  | incomingUnknownGetRequest => is_method hdr "GET"
  | incomingUnknownHeadRequest => False
  | incomingUnknownPostRequest =>
      is_method hdr "POST"
      /\ Qt.indexOf (value hdr "SOAPACTION") "#"%char <= 0
  | incomingControlRequest =>
      is_method hdr "POST"
      /\ 0 < Qt.indexOf (value hdr "SOAPACTION") "#"%char
      /\ setContent env body = true
      /\ Qt.isEmpty (Qt.simplified (path hdr)) = false
  | incomingNotifyMessage =>
      is_method hdr "NOTIFY"
      /\ exists scs mi',
           receiveNotify env hdr body mi = (scs, Success, true, mi')
  | incomingSubscriptionRequest =>
      is_method hdr "SUBSCRIBE"
      /\ exists scs mi',
           receiveSubscribe env hdr mi = (scs, Success, true, mi')
  | incomingUnsubscriptionRequest =>
      is_method hdr "UNSUBSCRIBE"
      /\ exists scs mi',
           receiveUnsubscribe env hdr mi = (scs, Success, true, mi')
  end.

(** A server whose overriding functions all throw an HException. *)
Definition throwingEnv : Env :=
  mkEnv (fun _ => true)
        (fun _ => Success)
        (fun _ => true)
        (fun _ mi => ([], Success, true, mi))
        (fun _ mi => ([], Success, true, mi))
        (fun _ _ mi => ([], Success, true, mi))
        (fun _ _ _ => ([], None)).

(** A server whose overriding functions answer 200 and leave the messaging
    info as it is; keep-alive is what the Connection header asks for. *)
Definition servingEnv : Env :=
  mkEnv (fun hdr => negb (String.eqb (Qt.toLower (value hdr "CONNECTION"))
                                     "close"))
        (fun _ => Success)
        (fun _ => true)
        (fun _ mi => ([], Success, true, mi))
        (fun _ mi => ([], Success, true, mi))
        (fun _ _ mi => ([], Success, true, mi))
        (fun _ _ mi => ([OtherStatus 200], Some mi)).

End HHttpServer.

(* ===================================================================== *)
(** ** The action proxy of the control point (hclientaction_p.h) *)
(* ===================================================================== *)

Module HClientAction.

(** class HInvocationInfo: the input arguments and the id of the
    invocation. *)
Record HInvocationInfo : Type := mkInvocationInfo {
  m_invokeId : Z;
  inv_inArgs : string
}.

(** An HClientActionPrivate together with its HActionProxy and the
    control URL the proxy posts to:
    - [m_reply]: HActionProxy::m_reply, the pending request if any;
    - [m_inArgs]: HActionProxy::m_inArgs;
    - [m_invocations]: HClientActionPrivate::m_invocations;
    - [posted]: every request put on the wire so far, oldest first;
    - [outstanding]: the requests on the wire that have no answer yet,
      by their position in [posted]. *)
Record State : Type := mkState {
  m_reply : option nat;
  m_inArgs : string;
  m_invocations : list HInvocationInfo;
  posted : list string;
  outstanding : list nat
}.

Definition init : State := mkState None "" [] [] [].

(** HActionProxy::invocationInProgress: [return m_reply;] *)
Definition invocationInProgress (s : State) : bool :=
  match m_reply s with
  | Some _ => true
  | None => false
  end.

(** HActionProxy::setInputArgs *)
Definition setInputArgs (inArgs : string) (s : State) : State :=
  mkState (m_reply s) inArgs (m_invocations s) (posted s) (outstanding s).

(** HActionProxy::deleteReply *)
Definition deleteReply (s : State) : State :=
  mkState None (m_inArgs s) (m_invocations s) (posted s) (outstanding s).

(** Modelled from the spec: HActionProxy::send, whose body is missing.
    Section 4.6, step 2: the envelope built from the input arguments is
    submitted to the HTTP client against the control URL; the proxy keeps
    the pending reply. *)
Definition send (s : State) : State :=
  let id := List.length (posted s) in
  mkState (Some id) (m_inArgs s) (m_invocations s)
          (posted s ++ [m_inArgs s]) (outstanding s ++ [id]).

(** Modelled from the spec: HClientAction::beginInvoke, whose body is
    missing.  Section 4.6: "Invocations [...] are queued per proxy: at
    most one is in flight against a given service's control URL at a
    time". *)
Definition beginInvoke (inv : HInvocationInfo) (s : State) : State :=
  let s :=
    mkState (m_reply s) (m_inArgs s) (m_invocations s ++ [inv])
            (posted s) (outstanding s) in
  if invocationInProgress s then s
  else send (setInputArgs (inv_inArgs inv) s).

(** Modelled from the spec: HClientActionPrivate::invokeCompleted, whose
    body is missing.  The finished invocation leaves the queue; the next
    one, if any, is sent. *)
Definition invokeCompleted (s : State) : State :=
  let s :=
    mkState (m_reply s) (m_inArgs s) (List.tl (m_invocations s))
            (posted s) (outstanding s) in
  match m_invocations s with
  | [] => s
  | next :: _ =>
      if invocationInProgress s then s
      else send (setInputArgs (inv_inArgs next) s)
  end.

(** HActionProxy::invocationDone: [deleteReply(); m_owner->invokeCompleted] *)
Definition invocationDone (s : State) : State :=
  invokeCompleted (deleteReply s).

(** The answer to the pending request arrives (the slots finished() and
    error() of the proxy end in invocationDone).  Without a pending reply
    there is no object to signal. *)
Definition replyArrived (s : State) : State :=
  match m_reply s with
  | None => s
  | Some id =>
      invocationDone
        (mkState (m_reply s) (m_inArgs s) (m_invocations s) (posted s)
                 (List.filter (fun j => negb (Nat.eqb j id))
                              (outstanding s)))
  end.

Inductive Event : Type :=
| BeginInvoke (inv : HInvocationInfo)
| ReplyArrived.

Definition step (s : State) (e : Event) : State :=
  match e with
  | BeginInvoke inv => beginInvoke inv s
  | ReplyArrived => replyArrived s
  end.

Definition run (evs : list Event) : State := List.fold_left step evs init.

(** The input arguments submitted by a sequence of events, in order. *)
Fixpoint submitted (evs : list Event) : list string :=
  match evs with
  | [] => []
  | BeginInvoke inv :: evs' => inv_inArgs inv :: submitted evs'
  | ReplyArrived :: evs' => submitted evs'
  end.

(** What holds of the proxy once the input arguments [sub] have been
    submitted, in this order: the wire carries the pending request and
    nothing else, the queue is empty exactly when nothing is pending, and
    the requests posted so far followed by the queue behind its head are
    the submissions. *)
Definition invariant (sub : list string) (s : State) : Prop :=
  outstanding s = match m_reply s with
                  | Some id => [id]
                  | None => []
                  end
  /\ (m_reply s = None <-> m_invocations s = [])
  /\ sub = posted s ++ map inv_inArgs (List.tl (m_invocations s)).

End HClientAction.

(* ===================================================================== *)
(** ** hservices_setupdata.h: the inline members of HServiceSetup *)
(* ===================================================================== *)

Module HServiceSetup.

Section Members.

(** The types of the fields are declared elsewhere; an [HService*] is
    [None] when null. *)
Context {HServiceId HResourceType HService HInclusionRequirement : Type}.

Record t : Type := mk {
  m_serviceId : HServiceId;
  m_serviceType : HResourceType;
  m_service : option HService;
  m_version : Z;
  m_inclusionReq : HInclusionRequirement
}.

Definition inclusionRequirement (s : t) := m_inclusionReq s.
Definition service (s : t) := m_service s.
Definition serviceId (s : t) := m_serviceId s.
Definition serviceType (s : t) := m_serviceType s.
Definition version (s : t) : Z := m_version s.

Definition setInclusionRequirement (arg : HInclusionRequirement) (s : t) : t :=
  mk (m_serviceId s) (m_serviceType s) (m_service s) (m_version s) arg.

Definition setServiceId (arg : HServiceId) (s : t) : t :=
  mk arg (m_serviceType s) (m_service s) (m_version s) (m_inclusionReq s).

Definition setServiceType (arg : HResourceType) (s : t) : t :=
  mk (m_serviceId s) arg (m_service s) (m_version s) (m_inclusionReq s).

Definition setService (arg : option HService) (s : t) : t :=
  mk (m_serviceId s) (m_serviceType s) arg (m_version s) (m_inclusionReq s).

Definition setVersion (version : Z) (s : t) : t :=
  mk (m_serviceId s) (m_serviceType s) (m_service s) version
     (m_inclusionReq s).

(** takeService: the returned pointer and the instance afterwards. *)
Definition takeService (s : t) : option HService * t :=
  let retVal := m_service s in
  (retVal,
   mk (m_serviceId s) (m_serviceType s) None (m_version s)
      (m_inclusionReq s)).

End Members.

End HServiceSetup.

(* ===================================================================== *)
(** ** Notions the specification uses *)
(* ===================================================================== *)

Module Spec.

(** clamp(x, lo, hi) *)
Definition clamp (x lo hi : Z) : Z := Z.max lo (Z.min x hi).

(** A value a quint32 argument can hold. *)
Definition is_quint32 (x : Z) : Prop := 0 <= x < 2 ^ 32.

(** The search ports UDA 1.1 allows. *)
Definition search_port_in_range (p : Z) : Prop := 49152 <= p <= 65535.

(** "UPnP/1.1 is advertised": the minor version of the UPnP token is
    positive. *)
Definition advertises_v11 (tokens : HProductTokens.t) : Prop :=
  HProductTokens.upnpToken_minorVersion tokens > 0.

Definition defined (usn : HDiscoveryType.t) : Prop :=
  HDiscoveryType.type usn <> HDiscoveryType.Undefined.

(** "Inconsistent" version ids: some given (non-negative), some not. *)
Definition mixed_signs2 (bootId configId : Z) : Prop :=
  (bootId < 0 /\ 0 <= configId) \/ (configId < 0 /\ 0 <= bootId).

Definition mixed_signs3 (bootId configId nextBootId : Z) : Prop :=
  (bootId < 0 \/ configId < 0 \/ nextBootId < 0)
  /\ (0 <= bootId \/ 0 <= configId \/ 0 <= nextBootId).

(** [token] is [name] up to the case of the letters. *)
Definition eq_nocase (token name : string) : bool :=
  String.eqb (Qt.toLower token) (Qt.toLower name).

(** The routing table of section 4.2, "route strictly by method equality";
    [None] stands for 405 Method Not Allowed. *)
Definition strict_route (method : string) : option HHttpServer.Handler :=
  if eq_nocase method "GET" then Some HHttpServer.GetHandler
  else if eq_nocase method "HEAD" then Some HHttpServer.HeadHandler
  else if eq_nocase method "POST" then Some HHttpServer.PostHandler
  else if eq_nocase method "NOTIFY" then Some HHttpServer.NotifyHandler
  else if eq_nocase method "SUBSCRIBE"
  then Some HHttpServer.SubscribeHandler
  else if eq_nocase method "UNSUBSCRIBE"
  then Some HHttpServer.UnsubscribeHandler
  else None.

(** A method that is none of GET, HEAD, POST, NOTIFY, SUBSCRIBE and
    UNSUBSCRIBE, whatever the case of its letters. *)
Definition unknown_method (method : string) : Prop :=
  forall name,
    In name ["GET"; "HEAD"; "POST"; "NOTIFY"; "SUBSCRIBE"; "UNSUBSCRIBE"] ->
    eq_nocase method name = false.

(** No field of the request is named HOST, in whatever case. *)
Definition host_missing (h : HHttpServer.QHttpRequestHeader) : Prop :=
  forall k v,
    In (k, v) (HHttpServer.values h) -> eq_nocase k "HOST" = false.

End Spec.

(* ===================================================================== *)
(** ** The Qt functions on small inputs *)
(* ===================================================================== *)

Example compare_ignores_case :
  Qt.compare "Subscribe" "SUBSCRIBE" Qt.CaseInsensitive = 0
  /\ Qt.compare "Subscribe" "SUBSCRIBE" Qt.CaseSensitive <> 0
  /\ Qt.compare "GET" "HEAD" Qt.CaseInsensitive = -1.
Proof. repeat split; try reflexivity. discriminate. Qed.

Example indexOf_mid_soapaction :
  let soapAction := "urn:schemas-upnp-org:service:SwitchPower:1#SetTarget" in
  Qt.indexOf soapAction "#"%char = 42
  /\ Qt.mid soapAction 42 = "#SetTarget"
  /\ Qt.indexOf "SetTarget" "#"%char = -1
  /\ Qt.indexOf "#SetTarget" "#"%char = 0.
Proof. repeat split; reflexivity. Qed.

Example simplified_trims_and_collapses :
  Qt.simplified "  /control   /switch " = "/control /switch"
  /\ Qt.simplified "   " = "".
Proof. split; reflexivity. Qed.

Example value_ignores_case_of_the_name :
  let hdr := HHttpServer.mkHeader true "GET" "/"
               [("Connection", "close"); ("Host", "192.0.2.10:49200")] in
  HHttpServer.value hdr "HOST" = "192.0.2.10:49200"
  /\ HHttpServer.value hdr "SOAPACTION" = "".
Proof. split; reflexivity. Qed.

Example to_qint32_wraps :
  Qt.to_qint32 86400 = 86400 /\ Qt.to_qint32 4294967295 = -1.
Proof. split; reflexivity. Qed.

(* ===================================================================== *)
(** ** Properties of the SSDP messages *)
(* ===================================================================== *)

Lemma Type_eqb_eq (a b : HDiscoveryType.Type_) :
  HDiscoveryType.Type_eqb a b = true <-> a = b.
Proof. destruct a, b; simpl; split; congruence. Qed.

Lemma Type_eqb_undefined (usn : HDiscoveryType.t) :
  Spec.defined usn ->
  HDiscoveryType.Type_eqb (HDiscoveryType.type usn) HDiscoveryType.Undefined
  = false.
Proof.
  unfold Spec.defined. intros H.
  destruct (HDiscoveryType.Type_eqb _ _) eqn:E; [|reflexivity].
  apply Type_eqb_eq in E. contradiction.
Qed.

Lemma HDiscoveryType_eqb_refl (a : HDiscoveryType.t) :
  HDiscoveryType.eqb a a = true.
Proof.
  unfold HDiscoveryType.eqb.
  rewrite !String.eqb_refl, !andb_true_r. now apply Type_eqb_eq.
Qed.

Lemma QUrl_eqb_refl (u : Qt.QUrl) : Qt.QUrl_eqb u u = true.
Proof.
  unfold Qt.QUrl_eqb. rewrite String.eqb_refl, andb_true_r.
  now destruct (Qt.url_isValid u).
Qed.

Lemma to_qint32_small (z : Z) :
  - 2 ^ 31 <= z < 2 ^ 31 -> Qt.to_qint32 z = z.
Proof.
  intros H. unfold Qt.to_qint32.
  rewrite Z.mod_small; lia.
Qed.

(** The value both constructors compute from their first argument. *)
Lemma clamp_branches (x : Z) :
  (if x <? 5 then 5 else if x >? 60 * 60 * 24 then 60 * 60 * 24 else x)
  = Spec.clamp x 5 86400.
Proof.
  unfold Spec.clamp.
  destruct (Z.ltb_spec x 5); [lia|].
  destruct (Z.gtb_spec x (60 * 60 * 24)); lia.
Qed.

Lemma clamp_bounds (x lo hi : Z) :
  lo <= hi -> lo <= Spec.clamp x lo hi <= hi.
Proof. unfold Spec.clamp. lia. Qed.

(** *** HDiscoveryRequest: MX *)

Lemma discovery_request_accepts (mx : Z) (st : HDiscoveryType.t)
    (userAgent : HProductTokens.t) :
  Spec.defined st -> 1 <= mx ->
  HDiscoveryRequest.new mx st userAgent
  = HDiscoveryRequest.mkPrivate st (Z.min mx 5) userAgent.
Proof.
  intros Hst Hmx. unfold HDiscoveryRequest.new, HDiscoveryRequest.init.
  rewrite (Type_eqb_undefined _ Hst).
  destruct (Z.ltb_spec mx 1); [lia|].
  destruct (Z.gtb_spec mx 5); simpl; f_equal; lia.
Qed.

Lemma discovery_request_rejects (mx : Z) (st : HDiscoveryType.t)
    (userAgent : HProductTokens.t) :
  mx < 1 ->
  HDiscoveryRequest.new mx st userAgent = HDiscoveryRequest.default.
Proof.
  intros Hmx. unfold HDiscoveryRequest.new, HDiscoveryRequest.init.
  destruct (HDiscoveryType.Type_eqb _ _); [reflexivity|].
  destruct (Z.ltb_spec mx 1); [reflexivity|lia].
Qed.

(** C3, as stated, fails: the constructor turns down an MX below 1.  With
    MX = 0 and the search target upnp:rootdevice the object keeps the
    default MX 0, which is not clamp(0, 1, 5) = 1, and is not valid. *)
Lemma discovery_request_mx_zero_not_clamped :
  let st := HDiscoveryType.mk HDiscoveryType.RootDevice "" "" in
  let ua := HProductTokens.mk true 1 "Linux/2.6 UPnP/1.1 HUPnP/0.9" in
  let msg := HDiscoveryRequest.new 0 st ua in
  HDiscoveryRequest.mx msg <> Spec.clamp 0 1 5
  /\ HDiscoveryRequest.mx msg = 0
  /\ HDiscoveryRequest.isValid msg false = false.
Proof. cbv. repeat split; discriminate. Qed.

(** C3 (amended): for a defined search target, every MX of at least 1 is
    stored as clamp(mx, 1, 5), that is min(mx, 5), in a valid message; an
    MX below 1 is rejected: the object stays default-constructed, with
    MX 0, and is not valid. *)
Theorem discovery_request_mx (mx : Z) (st : HDiscoveryType.t)
    (userAgent : HProductTokens.t) :
  Spec.defined st ->
  let msg := HDiscoveryRequest.new mx st userAgent in
  (1 <= mx ->
     HDiscoveryRequest.mx msg = Spec.clamp mx 1 5
     /\ HDiscoveryRequest.isValid msg false = true)
  /\ (mx < 1 ->
     msg = HDiscoveryRequest.default
     /\ HDiscoveryRequest.mx msg = 0
     /\ HDiscoveryRequest.isValid msg false = false).
Proof.
  intros Hst msg. subst msg. split; intros Hmx.
  - rewrite (discovery_request_accepts _ _ _ Hst Hmx).
    unfold HDiscoveryRequest.mx, HDiscoveryRequest.isValid. simpl.
    rewrite (Type_eqb_undefined _ Hst). split; [|reflexivity].
    unfold Spec.clamp. lia.
  - rewrite (discovery_request_rejects _ _ _ Hmx). repeat split.
Qed.

Lemma discovery_request_mx_witness :
  let st := HDiscoveryType.mk HDiscoveryType.RootDevice "" "" in
  let ua := HProductTokens.mk true 1 "Linux/2.6 UPnP/1.1 HUPnP/0.9" in
  (HDiscoveryRequest.mx (HDiscoveryRequest.new 9 st ua) = Spec.clamp 9 1 5
   /\ HDiscoveryRequest.isValid (HDiscoveryRequest.new 9 st ua) false = true)
  /\ (HDiscoveryRequest.new (-3) st ua = HDiscoveryRequest.default
      /\ HDiscoveryRequest.mx (HDiscoveryRequest.new (-3) st ua) = 0
      /\ HDiscoveryRequest.isValid (HDiscoveryRequest.new (-3) st ua) false
         = false).
Proof.
  intros st ua. split.
  - apply (discovery_request_mx 9 st ua); [discriminate | lia].
  - apply (discovery_request_mx (-3) st ua); [discriminate | lia].
Defined.

(** *** HResourceAvailable and HDiscoveryResponse: cache-control max-age *)

Lemma available_accepts (x : Z) (location : Qt.QUrl)
    (serverTokens : HProductTokens.t) (usn : HDiscoveryType.t)
    (bootId configId searchPort : Z) :
  Spec.defined usn ->
  Qt.url_isValid location = true ->
  Qt.url_isEmpty location = false ->
  (Spec.advertises_v11 serverTokens -> 0 <= bootId /\ 0 <= configId) ->
  HResourceAvailable.new x location serverTokens usn bootId configId
                         searchPort
  = HResourceAvailable.mkPrivate serverTokens usn location
      (Spec.clamp x 5 86400) bootId configId
      (if (HProductTokens.upnpToken_minorVersion serverTokens >? 0)
          && (49152 <=? searchPort) && (searchPort <=? 65535)
       then searchPort else -1).
Proof.
  intros Husn Hv He Hids. unfold HResourceAvailable.new.
  rewrite (Type_eqb_undefined _ Husn), Hv, He, clamp_branches. simpl.
  rewrite to_qint32_small
    by (pose proof (clamp_bounds x 5 86400); lia).
  unfold Spec.advertises_v11 in Hids.
  destruct (Z.gtb_spec (HProductTokens.upnpToken_minorVersion serverTokens) 0)
    as [Hm|Hm]; simpl; [|reflexivity].
  destruct Hids as [Hb Hc]; [lia|].
  destruct (Z.ltb_spec bootId 0); [lia|].
  destruct (Z.ltb_spec configId 0); [lia|]. simpl.
  destruct (Z.ltb_spec searchPort 49152), (Z.gtb_spec searchPort 65535),
    (Z.leb_spec 49152 searchPort), (Z.leb_spec searchPort 65535);
    simpl; try reflexivity; lia.
Qed.

Lemma response_accepts (now x date : Z) (location : Qt.QUrl)
    (serverTokens : HProductTokens.t) (usn : HDiscoveryType.t)
    (bootId configId searchPort : Z) :
  Spec.defined usn ->
  Qt.url_isValid location = true ->
  (Spec.advertises_v11 serverTokens -> 0 <= bootId /\ 0 <= configId) ->
  HDiscoveryResponse.new now x date location serverTokens usn bootId
                         configId searchPort
  = HDiscoveryResponse.mkPrivate serverTokens usn location (Some now)
      (Spec.clamp x 5 86400) bootId configId searchPort.
Proof.
  intros Husn Hv Hids. unfold HDiscoveryResponse.new.
  rewrite (Type_eqb_undefined _ Husn), Hv, clamp_branches. simpl.
  rewrite to_qint32_small
    by (pose proof (clamp_bounds x 5 86400); lia).
  unfold Spec.advertises_v11 in Hids.
  destruct (Z.gtb_spec (HProductTokens.upnpToken_minorVersion serverTokens) 0)
    as [Hm|Hm]; simpl; [|reflexivity].
  destruct Hids as [Hb Hc]; [lia|].
  destruct (Z.ltb_spec bootId 0); [lia|].
  destruct (Z.ltb_spec configId 0); [lia|]. reflexivity.
Qed.

(** C4: for every max-age [x] a quint32 can hold and constructor arguments
    that are valid otherwise (defined USN, valid location -- and non-empty
    for the advertisement --, non-negative bootId and configId when
    UPnP/1.1 is advertised), the max-age of the constructed HResourceAvailable
    and of the constructed HDiscoveryResponse is clamp(x, 5, 86400). *)
Theorem cache_control_max_age_clamped (now x date : Z) (location : Qt.QUrl)
    (serverTokens : HProductTokens.t) (usn : HDiscoveryType.t)
    (bootId configId searchPort : Z) :
  Spec.is_quint32 x ->
  Spec.defined usn ->
  Qt.url_isValid location = true ->
  (Spec.advertises_v11 serverTokens -> 0 <= bootId /\ 0 <= configId) ->
  (Qt.url_isEmpty location = false ->
   HResourceAvailable.cacheControlMaxAge
     (HResourceAvailable.new x location serverTokens usn bootId configId
                             searchPort)
   = Spec.clamp x 5 86400)
  /\ HDiscoveryResponse.cacheControlMaxAge
       (HDiscoveryResponse.new now x date location serverTokens usn bootId
                               configId searchPort)
     = Spec.clamp x 5 86400.
Proof.
  intros _ Husn Hv Hids. split.
  - intros He. now rewrite available_accepts.
  - now rewrite response_accepts.
Qed.

Lemma cache_control_max_age_clamped_witness :
  let loc := Qt.mkQUrl true "http://192.0.2.10:49200/desc.xml" in
  let tok := HProductTokens.mk true 1 "Linux/2.6 UPnP/1.1 HUPnP/0.9" in
  let usn := HDiscoveryType.mk HDiscoveryType.RootDevice "uuid:aaaa" "" in
  HResourceAvailable.cacheControlMaxAge
    (HResourceAvailable.new 4000000000 loc tok usn 1 7 (-1)) = 86400
  /\ HDiscoveryResponse.cacheControlMaxAge
       (HDiscoveryResponse.new 0 4000000000 0 loc tok usn 1 7 (-1)) = 86400.
Proof.
  intros loc tok usn.
  assert (Hq : Spec.is_quint32 4000000000) by (unfold Spec.is_quint32; lia).
  assert (Hu : Spec.defined usn) by discriminate.
  assert (Hv : Qt.url_isValid loc = true) by reflexivity.
  assert (Hi : Spec.advertises_v11 tok -> 0 <= 1 /\ 0 <= 7) by lia.
  destruct (cache_control_max_age_clamped 0 4000000000 0 loc tok usn 1 7 (-1)
              Hq Hu Hv Hi) as [Ha Hr].
  split; [apply Ha; reflexivity | exact Hr].
Defined.

(** *** Search ports *)

(** The two NOTIFY variants that carry a search port store -1 for a port
    outside [49152, 65535] whenever they accept their arguments. *)
Lemma available_drops_search_port (x : Z) (location : Qt.QUrl)
    (serverTokens : HProductTokens.t) (usn : HDiscoveryType.t)
    (bootId configId searchPort : Z) :
  Spec.defined usn ->
  Qt.url_isValid location = true ->
  Qt.url_isEmpty location = false ->
  (Spec.advertises_v11 serverTokens -> 0 <= bootId /\ 0 <= configId) ->
  ~ Spec.search_port_in_range searchPort ->
  HResourceAvailable.searchPort
    (HResourceAvailable.new x location serverTokens usn bootId configId
                            searchPort) = -1.
Proof.
  intros Husn Hv He Hids Hp. rewrite available_accepts by assumption.
  unfold HResourceAvailable.searchPort, Spec.search_port_in_range in *.
  simpl.
  destruct (HProductTokens.upnpToken_minorVersion serverTokens >? 0);
    simpl; [|reflexivity].
  destruct (Z.leb_spec 49152 searchPort), (Z.leb_spec searchPort 65535);
    simpl; try reflexivity; lia.
Qed.

Lemma update_accepts (location : Qt.QUrl) (usn : HDiscoveryType.t)
    (bootId configId nextBootId searchPort : Z) :
  Spec.defined usn ->
  Qt.url_isValid location = true ->
  (bootId < 0 /\ configId < 0 /\ nextBootId < 0)
  \/ (0 <= bootId /\ 0 <= configId /\ 0 <= nextBootId) ->
  HResourceUpdate.new location usn bootId configId nextBootId searchPort
  = if bootId <? 0
    then HResourceUpdate.mkPrivate usn location (-1) (-1) (-1) (-1)
    else HResourceUpdate.mkPrivate usn location bootId configId nextBootId
           (if (49152 <=? searchPort) && (searchPort <=? 65535)
            then searchPort else -1).
Proof.
  intros Husn Hv Hids. unfold HResourceUpdate.new.
  rewrite (Type_eqb_undefined _ Husn), Hv. simpl.
  destruct (Z.ltb_spec bootId 0), (Z.ltb_spec configId 0),
    (Z.ltb_spec nextBootId 0), (Z.geb_spec bootId 0),
    (Z.geb_spec configId 0), (Z.geb_spec nextBootId 0);
    simpl; try lia; try reflexivity.
  destruct (Z.ltb_spec searchPort 49152), (Z.gtb_spec searchPort 65535),
    (Z.leb_spec 49152 searchPort), (Z.leb_spec searchPort 65535);
    simpl; try reflexivity; lia.
Qed.

Lemma update_drops_search_port (location : Qt.QUrl) (usn : HDiscoveryType.t)
    (bootId configId nextBootId searchPort : Z) :
  Spec.defined usn ->
  Qt.url_isValid location = true ->
  (bootId < 0 /\ configId < 0 /\ nextBootId < 0)
  \/ (0 <= bootId /\ 0 <= configId /\ 0 <= nextBootId) ->
  ~ Spec.search_port_in_range searchPort ->
  HResourceUpdate.searchPort
    (HResourceUpdate.new location usn bootId configId nextBootId searchPort)
  = -1.
Proof.
  intros Husn Hv Hids Hp. rewrite update_accepts by assumption.
  unfold HResourceUpdate.searchPort, Spec.search_port_in_range in *.
  destruct (bootId <? 0); simpl; [reflexivity|].
  destruct (Z.leb_spec 49152 searchPort), (Z.leb_spec searchPort 65535);
    simpl; try reflexivity; lia.
Qed.

(** The search response stores whatever search port it is given. *)
Lemma response_keeps_search_port (now x date : Z) (location : Qt.QUrl)
    (serverTokens : HProductTokens.t) (usn : HDiscoveryType.t)
    (bootId configId searchPort : Z) :
  Spec.defined usn ->
  Qt.url_isValid location = true ->
  (Spec.advertises_v11 serverTokens -> 0 <= bootId /\ 0 <= configId) ->
  HDiscoveryResponse.searchPort
    (HDiscoveryResponse.new now x date location serverTokens usn bootId
                            configId searchPort) = searchPort.
Proof. intros. now rewrite response_accepts. Qed.

(** C5 at the failing input: an HDiscoveryResponse built from valid
    arguments (UPnP/1.1 tokens, bootId 1, configId 7) and the search port
    80, which lies outside [49152, 65535], is valid and reports the search
    port 80 instead of -1, while HResourceAvailable and HResourceUpdate
    built from the same values report -1. *)
Theorem discovery_response_search_port_not_dropped :
  let loc := Qt.mkQUrl true "http://192.0.2.10:49200/desc.xml" in
  let tok := HProductTokens.mk true 1 "Linux/2.6 UPnP/1.1 HUPnP/0.9" in
  let usn := HDiscoveryType.mk HDiscoveryType.RootDevice "uuid:aaaa" "" in
  let response := HDiscoveryResponse.new 0 1800 0 loc tok usn 1 7 80 in
  ~ Spec.search_port_in_range 80
  /\ HDiscoveryResponse.isValid response true = true
  /\ HDiscoveryResponse.searchPort response = 80
  /\ HResourceAvailable.searchPort
       (HResourceAvailable.new 1800 loc tok usn 1 7 80) = -1
  /\ HResourceUpdate.searchPort (HResourceUpdate.new loc usn 1 7 2 80) = -1.
Proof.
  cbv zeta. split; [unfold Spec.search_port_in_range; lia|].
  repeat split; reflexivity.
Qed.

(** *** Version ids under UPnP/1.1 *)

(** C6: when the server tokens advertise a UPnP minor version above 0,
    constructing an HResourceAvailable or an HDiscoveryResponse with a
    negative bootId or a negative configId assigns nothing: the object is
    the default-constructed one and isValid is false, strict or not. *)
Theorem v11_requires_version_ids (now x date : Z) (location : Qt.QUrl)
    (serverTokens : HProductTokens.t) (usn : HDiscoveryType.t)
    (bootId configId searchPort : Z) (strict : bool) :
  Spec.advertises_v11 serverTokens ->
  bootId < 0 \/ configId < 0 ->
  let alive :=
    HResourceAvailable.new x location serverTokens usn bootId configId
                           searchPort in
  let response :=
    HDiscoveryResponse.new now x date location serverTokens usn bootId
                           configId searchPort in
  alive = HResourceAvailable.default
  /\ HResourceAvailable.isValid alive strict = false
  /\ response = HDiscoveryResponse.default
  /\ HDiscoveryResponse.isValid response strict = false.
Proof.
  intros Hv Hids alive response.
  assert (Ha : alive = HResourceAvailable.default).
  { subst alive. unfold HResourceAvailable.new, Spec.advertises_v11 in *.
    destruct (HDiscoveryType.Type_eqb _ _); [reflexivity|].
    destruct (negb _ || _); [reflexivity|].
    destruct (Z.gtb_spec
                (HProductTokens.upnpToken_minorVersion serverTokens) 0);
      [|lia].
    destruct (Z.ltb_spec bootId 0), (Z.ltb_spec configId 0);
      simpl; try reflexivity; lia. }
  assert (Hr : response = HDiscoveryResponse.default).
  { subst response. unfold HDiscoveryResponse.new, Spec.advertises_v11 in *.
    destruct (HDiscoveryType.Type_eqb _ _); [reflexivity|].
    destruct (negb _); [reflexivity|].
    destruct (Z.gtb_spec
                (HProductTokens.upnpToken_minorVersion serverTokens) 0);
      [|lia].
    destruct (Z.ltb_spec bootId 0), (Z.ltb_spec configId 0);
      simpl; try reflexivity; lia. }
  rewrite Ha, Hr. repeat split.
Qed.

Lemma v11_requires_version_ids_witness :
  let loc := Qt.mkQUrl true "http://192.0.2.10:49200/desc.xml" in
  let tok := HProductTokens.mk true 1 "Linux/2.6 UPnP/1.1 HUPnP/0.9" in
  let usn := HDiscoveryType.mk HDiscoveryType.RootDevice "uuid:aaaa" "" in
  HResourceAvailable.new 1800 loc tok usn (-1) 7 50000
  = HResourceAvailable.default
  /\ HResourceAvailable.isValid
       (HResourceAvailable.new 1800 loc tok usn (-1) 7 50000) false = false
  /\ HDiscoveryResponse.new 0 1800 0 loc tok usn (-1) 7 50000
     = HDiscoveryResponse.default
  /\ HDiscoveryResponse.isValid
       (HDiscoveryResponse.new 0 1800 0 loc tok usn (-1) 7 50000) false
     = false.
Proof.
  intros loc tok usn.
  apply (v11_requires_version_ids 0 1800 0 loc tok usn (-1) 7 50000 false).
  - unfold Spec.advertises_v11. simpl. lia.
  - left. lia.
Defined.

(** *** Failed validation *)

Lemma available_rejects (x : Z) (location : Qt.QUrl)
    (serverTokens : HProductTokens.t) (usn : HDiscoveryType.t)
    (bootId configId searchPort : Z) :
  HDiscoveryType.type usn = HDiscoveryType.Undefined
  \/ Qt.url_isValid location = false
  \/ Qt.url_isEmpty location = true
  \/ (Spec.advertises_v11 serverTokens /\ (bootId < 0 \/ configId < 0)) ->
  HResourceAvailable.new x location serverTokens usn bootId configId
                         searchPort
  = HResourceAvailable.default.
Proof.
  intros H. unfold HResourceAvailable.new.
  destruct (HDiscoveryType.Type_eqb _ _) eqn:Et; [reflexivity|].
  destruct (Qt.url_isValid location) eqn:Ev,
    (Qt.url_isEmpty location) eqn:Ee; simpl; try reflexivity.
  destruct H as [H | [H | [H | [Hv Hids]]]]; try discriminate.
  - apply Type_eqb_eq in H. congruence.
  - unfold Spec.advertises_v11 in Hv.
    destruct (Z.gtb_spec
                (HProductTokens.upnpToken_minorVersion serverTokens) 0);
      [|lia].
    destruct (Z.ltb_spec bootId 0), (Z.ltb_spec configId 0);
      simpl; try reflexivity; lia.
Qed.

Lemma unavailable_rejects (usn : HDiscoveryType.t)
    (sourceLocation : HEndpoint.t) (bootId configId : Z) :
  HDiscoveryType.type usn = HDiscoveryType.Undefined
  \/ Spec.mixed_signs2 bootId configId ->
  HResourceUnavailable.new usn sourceLocation bootId configId
  = HResourceUnavailable.default.
Proof.
  intros H. unfold HResourceUnavailable.new.
  destruct (HDiscoveryType.Type_eqb _ _) eqn:Et; [reflexivity|].
  destruct H as [H | H].
  - apply Type_eqb_eq in H. congruence.
  - unfold Spec.mixed_signs2 in H.
    destruct (Z.ltb_spec bootId 0), (Z.ltb_spec configId 0),
      (Z.geb_spec bootId 0), (Z.geb_spec configId 0);
      simpl; try reflexivity; lia.
Qed.

Lemma update_rejects (location : Qt.QUrl) (usn : HDiscoveryType.t)
    (bootId configId nextBootId searchPort : Z) :
  HDiscoveryType.type usn = HDiscoveryType.Undefined
  \/ Qt.url_isValid location = false
  \/ Spec.mixed_signs3 bootId configId nextBootId ->
  HResourceUpdate.new location usn bootId configId nextBootId searchPort
  = HResourceUpdate.default.
Proof.
  intros H. unfold HResourceUpdate.new.
  destruct (HDiscoveryType.Type_eqb _ _) eqn:Et; [reflexivity|].
  destruct (Qt.url_isValid location) eqn:Ev; simpl; [|reflexivity].
  destruct H as [H | [H | H]]; try discriminate.
  - apply Type_eqb_eq in H. congruence.
  - unfold Spec.mixed_signs3 in H.
    destruct (Z.ltb_spec bootId 0), (Z.ltb_spec configId 0),
      (Z.ltb_spec nextBootId 0), (Z.geb_spec bootId 0),
      (Z.geb_spec configId 0), (Z.geb_spec nextBootId 0);
      simpl; try reflexivity; lia.
Qed.

(** C9: when the validation in the constructor of HResourceAvailable,
    HResourceUnavailable or HResourceUpdate fails (undefined USN; invalid
    location, or empty location for the advertisement; version ids that are
    negative under UPnP/1.1 for the advertisement, or of mixed sign for the
    other two), no field is assigned: the object is the default-constructed
    one, isValid(false) is false and the accessors give the default
    values. *)
Theorem failed_validation_leaves_default :
  (forall x location serverTokens usn bootId configId searchPort,
     HDiscoveryType.type usn = HDiscoveryType.Undefined
     \/ Qt.url_isValid location = false
     \/ Qt.url_isEmpty location = true
     \/ (Spec.advertises_v11 serverTokens /\ (bootId < 0 \/ configId < 0)) ->
     let o := HResourceAvailable.new x location serverTokens usn bootId
                configId searchPort in
     o = HResourceAvailable.default
     /\ HResourceAvailable.isValid o false = false
     /\ HResourceAvailable.serverTokens o = HProductTokens.default
     /\ HResourceAvailable.usn o = HDiscoveryType.default
     /\ HResourceAvailable.location o = Qt.QUrl_default
     /\ HResourceAvailable.cacheControlMaxAge o = 0
     /\ HResourceAvailable.bootId o = 0
     /\ HResourceAvailable.configId o = 0
     /\ HResourceAvailable.searchPort o = 0)
  /\ (forall usn sourceLocation bootId configId,
     HDiscoveryType.type usn = HDiscoveryType.Undefined
     \/ Spec.mixed_signs2 bootId configId ->
     let o := HResourceUnavailable.new usn sourceLocation bootId configId in
     o = HResourceUnavailable.default
     /\ HResourceUnavailable.isValid o false = false
     /\ HResourceUnavailable.usn o = HDiscoveryType.default
     /\ HResourceUnavailable.location o = HEndpoint.default
     /\ HResourceUnavailable.bootId o = 0
     /\ HResourceUnavailable.configId o = 0)
  /\ (forall location usn bootId configId nextBootId searchPort,
     HDiscoveryType.type usn = HDiscoveryType.Undefined
     \/ Qt.url_isValid location = false
     \/ Spec.mixed_signs3 bootId configId nextBootId ->
     let o := HResourceUpdate.new location usn bootId configId nextBootId
                searchPort in
     o = HResourceUpdate.default
     /\ HResourceUpdate.isValid o false = false
     /\ HResourceUpdate.usn o = HDiscoveryType.default
     /\ HResourceUpdate.location o = Qt.QUrl_default
     /\ HResourceUpdate.bootId o = 0
     /\ HResourceUpdate.configId o = 0
     /\ HResourceUpdate.nextBootId o = 0
     /\ HResourceUpdate.searchPort o = 0).
Proof.
  split; [|split].
  - intros * H o. subst o. rewrite available_rejects by exact H.
    repeat split.
  - intros * H o. subst o. rewrite unavailable_rejects by exact H.
    repeat split.
  - intros * H o. subst o. rewrite update_rejects by exact H.
    repeat split.
Qed.

Lemma failed_validation_leaves_default_witness :
  let loc := Qt.mkQUrl true "http://192.0.2.10:49200/desc.xml" in
  let tok := HProductTokens.mk true 1 "Linux/2.6 UPnP/1.1 HUPnP/0.9" in
  let usn := HDiscoveryType.mk HDiscoveryType.RootDevice "uuid:aaaa" "" in
  let src := HEndpoint.mk "192.0.2.10" 1900 in
  HResourceAvailable.new 1800 Qt.QUrl_default tok usn 1 7 50000
  = HResourceAvailable.default
  /\ HResourceUnavailable.new usn src (-1) 7 = HResourceUnavailable.default
  /\ HResourceUpdate.new loc usn 1 7 (-1) 50000 = HResourceUpdate.default.
Proof.
  intros loc tok usn src.
  destruct failed_validation_leaves_default as [Ha [Hu Hp]].
  split; [|split].
  - apply (Ha 1800 Qt.QUrl_default tok usn 1 7 50000).
    right. left. reflexivity.
  - apply (Hu usn src (-1) 7).
    right. left. split; lia.
  - apply (Hp loc usn 1 7 (-1) 50000).
    right. right. split; [right; right; lia | left; lia].
Defined.

(** *** Equality of ssdp:update messages *)

(** C10: two HResourceUpdate objects that agree on USN, location, bootId,
    configId and searchPort compare equal under operator== even though
    their nextBootId differ. *)
Theorem update_equality_ignores_nextBootId
    (obj1 obj2 : HResourceUpdate.Private) :
  HResourceUpdate.usn obj1 = HResourceUpdate.usn obj2 ->
  HResourceUpdate.location obj1 = HResourceUpdate.location obj2 ->
  HResourceUpdate.bootId obj1 = HResourceUpdate.bootId obj2 ->
  HResourceUpdate.configId obj1 = HResourceUpdate.configId obj2 ->
  HResourceUpdate.searchPort obj1 = HResourceUpdate.searchPort obj2 ->
  HResourceUpdate.nextBootId obj1 <> HResourceUpdate.nextBootId obj2 ->
  HResourceUpdate.eqb obj1 obj2 = true /\ obj1 <> obj2.
Proof.
  unfold HResourceUpdate.usn, HResourceUpdate.location,
    HResourceUpdate.bootId, HResourceUpdate.configId,
    HResourceUpdate.searchPort, HResourceUpdate.nextBootId.
  intros Hu Hl Hb Hc Hs Hn. split.
  - unfold HResourceUpdate.eqb. rewrite Hu, Hl, Hb, Hc, Hs.
    now rewrite HDiscoveryType_eqb_refl, QUrl_eqb_refl, !Z.eqb_refl.
  - intros ->. now apply Hn.
Qed.

Lemma update_equality_ignores_nextBootId_witness :
  let loc := Qt.mkQUrl true "http://192.0.2.10:49200/desc.xml" in
  let usn := HDiscoveryType.mk HDiscoveryType.RootDevice "uuid:aaaa" "" in
  HResourceUpdate.eqb (HResourceUpdate.new loc usn 1 7 2 50000)
                      (HResourceUpdate.new loc usn 1 7 3 50000) = true
  /\ HResourceUpdate.new loc usn 1 7 2 50000
     <> HResourceUpdate.new loc usn 1 7 3 50000.
Proof.
  intros loc usn.
  apply update_equality_ignores_nextBootId;
    try reflexivity. discriminate.
Defined.

(* ===================================================================== *)
(** ** Properties of HHttpServer::processRequest *)
(* ===================================================================== *)

Section Dispatch.

Import HHttpHandler HHttpServer.

Lemma ascii_compare_refl (c : ascii) : Ascii.compare c c = Eq.
Proof. unfold Ascii.compare. apply N.compare_refl. Qed.

Lemma string_compare_refl (s : string) : String.compare s s = Eq.
Proof.
  induction s as [|c s IH]; simpl; [reflexivity|].
  now rewrite ascii_compare_refl.
Qed.

(** compare(...) == 0 is equality after case folding. *)
Lemma compare_zero (s other : string) (cs : Qt.CaseSensitivity) :
  (Qt.compare s other cs =? 0)
  = String.eqb (Qt.fold_case cs s) (Qt.fold_case cs other).
Proof.
  unfold Qt.compare.
  destruct (String.eqb_spec (Qt.fold_case cs s) (Qt.fold_case cs other))
    as [E|N].
  - rewrite E, string_compare_refl. reflexivity.
  - destruct (String.compare _ _) eqn:C; try reflexivity.
    apply String.compare_eq_iff in C. contradiction.
Qed.

Lemma compare_eq_nocase (method name : string) :
  (Qt.compare method name Qt.CaseInsensitive =? 0)
  = Spec.eq_nocase method name.
Proof. apply compare_zero. Qed.

(** The condition of the HEAD branch does not look at the method: its
    value is that of the right operand of the comma, whatever integer that
    is ... *)
Lemma head_test_ignores_method (right_operand : Z) (method method' : string) :
  Qt.truthy
    (Qt.comma (Qt.compare method "HEAD" Qt.CaseSensitive) right_operand)
  = Qt.truthy
      (Qt.comma (Qt.compare method' "HEAD" Qt.CaseSensitive) right_operand).
Proof. reflexivity. Qed.

(** ... and the right operand is Qt::CaseInsensitive, which is zero. *)
Lemma head_condition_false (method : string) :
  head_condition method = false.
Proof. reflexivity. Qed.

(** The branch taken, compared with the routing table of the
    specification: they differ exactly on HEAD. *)
Lemma code_route_strict_route (method : string) :
  code_route method
  = if Spec.eq_nocase method "HEAD" then None
    else Spec.strict_route method.
Proof.
  unfold code_route, Spec.strict_route.
  rewrite head_condition_false, !compare_eq_nocase.
  destruct (Spec.eq_nocase method "GET") eqn:Eg.
  - unfold Spec.eq_nocase in *. apply String.eqb_eq in Eg.
    now rewrite Eg.
  - destruct (Spec.eq_nocase method "HEAD") eqn:Eh; [|reflexivity].
    unfold Spec.eq_nocase in *. apply String.eqb_eq in Eh.
    now rewrite Eh.
Qed.

Lemma code_route_unknown (method : string) :
  Spec.unknown_method method -> code_route method = None.
Proof.
  unfold Spec.unknown_method. intros H.
  rewrite code_route_strict_route. unfold Spec.strict_route.
  rewrite !H by (simpl; tauto). reflexivity.
Qed.

Variable env : Env.

(** Without a branch for the method the try block sends 405 and asks for
    a break. *)
Lemma dispatch_no_route (hdr : QHttpRequestHeader) (body : string)
    (mi : MessagingInfo) :
  code_route (method hdr) = None ->
  dispatch env hdr body mi = ([Sent MethotNotAllowed], Some (true, mi)).
Proof.
  unfold code_route, dispatch.
  repeat match goal with
  | |- context [if ?b then _ else _] => destruct b; [discriminate|]
  end.
  reflexivity.
Qed.

Lemma iteration_no_route (r : Round) :
  rv r = Success ->
  well_formed_with_host (requestHeader r) ->
  exiting_after_receive r = false ->
  code_route (method (requestHeader r)) = None ->
  iteration env r = ([Sent MethotNotAllowed], LoopBreak).
Proof.
  intros Hrv [Hv Hh] Hx Hroute. unfold iteration.
  rewrite Hrv, Hv, Hh, Hx. simpl.
  now rewrite dispatch_no_route.
Qed.

Lemma iteration_bad_request (r : Round) :
  rv r = Success ->
  isValid (requestHeader r) = false
  \/ Qt.isEmpty (value (requestHeader r) "HOST") = true ->
  iteration env r = ([Sent BadRequest], LoopBreak).
Proof.
  intros Hrv H. unfold iteration. rewrite Hrv.
  destruct (isValid (requestHeader r)); simpl; [|reflexivity].
  destruct H as [H|H]; [discriminate|]. now rewrite H.
Qed.

(** Turns that go on are run through; the loop carries on with what
    follows them. *)
Lemma loop_goes_on (pre rounds : list Round) :
  Forall (fun r => goes_on env r = true) pre ->
  loop env (pre ++ rounds)
  = (events_of env pre ++ fst (loop env rounds), snd (loop env rounds)).
Proof.
  induction 1 as [|r pre Hr Hpre IH]; simpl.
  - now destruct (loop env rounds).
  - unfold goes_on in Hr. apply andb_true_iff in Hr as [Hg Hi].
    rewrite Hg. destruct (iteration env r) as [evs [|]]; simpl in *;
      [|discriminate].
    rewrite IH. now rewrite app_assoc.
Qed.

(** A turn whose body breaks ends the loop: what follows is not read. *)
Lemma loop_breaks (pre rest : list Round) (r : Round) (evs : list Event) :
  Forall (fun r => goes_on env r = true) pre ->
  guard r = true ->
  iteration env r = (evs, LoopBreak) ->
  loop env (pre ++ r :: rest) = (events_of env pre ++ evs, rest).
Proof.
  intros Hpre Hg Hi. rewrite loop_goes_on by assumption.
  simpl. now rewrite Hg, Hi.
Qed.

Lemma processRequest_breaks (pre rest : list Round) (r : Round)
    (evs : list Event) (connectedAfterLoop : bool) :
  Forall (fun r => goes_on env r = true) pre ->
  guard r = true ->
  iteration env r = (evs, LoopBreak) ->
  processRequest env (pre ++ r :: rest) connectedAfterLoop
  = (events_of env pre ++ evs ++ closing connectedAfterLoop, rest).
Proof.
  intros Hpre Hg Hi. unfold processRequest.
  rewrite (loop_breaks pre rest r evs) by assumption.
  now rewrite <- app_assoc.
Qed.

End Dispatch.

Section ProcessRequest.

Import HHttpHandler HHttpServer.

Lemma host_missing_value_empty (h : QHttpRequestHeader) :
  Spec.host_missing h -> Qt.isEmpty (value h "HOST") = true.
Proof.
  unfold Spec.host_missing, value.
  induction (values h) as [|[k v] l IH]; intros H; cbn [lookup];
    [reflexivity|].
  change (String.eqb (Qt.toLower k) (Qt.toLower "HOST"))
    with (Spec.eq_nocase k "HOST").
  rewrite (H k v) by now left.
  apply IH. intros k' v' Hin. apply (H k' v'). now right.
Qed.

(** Events logged by the collaborators are responses, never calls. *)
Lemma map_Sent_no_call (scs : list StatusCode) (h : Incoming) :
  ~ In (Called h) (map Sent scs).
Proof.
  induction scs as [|sc scs IH]; simpl; [tauto|].
  intros [H|H]; [discriminate | now apply IH].
Qed.

Lemma receive_gena_no_call
    (receive : MessagingInfo ->
               list StatusCode * ReturnValue * bool * MessagingInfo)
    (mi : MessagingInfo) (h : Incoming) :
  ~ In (Called h) (fst (receive_gena receive mi)).
Proof.
  unfold receive_gena. destruct (receive mi) as [[[scs rv] parsed] mi'].
  apply map_Sent_no_call.
Qed.

Lemma call_events (env : Env) (h : Incoming) (hdr : QHttpRequestHeader)
    (mi : MessagingInfo) (h' : Incoming) :
  In (Called h') (fst (call env h hdr mi)) -> h' = h.
Proof.
  unfold call. destruct (incoming env h hdr mi) as [scs [mi'|]]; simpl;
    (intros [H|H]; [congruence | now apply map_Sent_no_call in H]).
Qed.

Lemma bind_events {A B : Type} (m : M A) (k : A -> M B) (mi : MessagingInfo)
    (e : Event) :
  In e (fst (bind m k mi)) ->
  In e (fst (m mi))
  \/ exists a mi', snd (m mi) = Some (a, mi') /\ In e (fst (k a mi')).
Proof.
  unfold bind. destruct (m mi) as [evs [[a mi']|]]; simpl; [|tauto].
  destruct (k a mi') as [evs' r] eqn:Ek; simpl. intros H.
  apply in_app_or in H as [H|H]; [now left|].
  right. exists a, mi'. rewrite Ek. now split.
Qed.

Ltac events_step :=
  match goal with
  | H : In _ (fst (bind _ _ _)) |- _ =>
      apply bind_events in H as [H | (? & ? & _ & H)]
  | H : In (Called _) (fst (call _ _ _ _)) |- _ =>
      apply call_events in H
  | H : In _ (fst (ret _ _)) |- _ => simpl in H; contradiction
  | H : In (Called _) (fst (send _ _ _)) |- _ =>
      simpl in H; destruct H as [H|H]; [discriminate | contradiction]
  | H : In _ (fst (mi_setKeepAlive _ _)) |- _ => simpl in H; contradiction
  | H : In (Called _) (fst (receive_gena _ _)) |- _ =>
      now apply receive_gena_no_call in H
  | x : (ReturnValue * bool)%type |- _ =>
      destruct x as [[| |] [|]]; cbv beta iota in *
  end.

Ltac split_collaborators env :=
  repeat match goal with
  | |- context [if ?b then _ else _] => destruct b
  end.

(** A virtual function is called only from the branch of its method. *)
Lemma dispatch_calls (env : Env) (hdr : QHttpRequestHeader) (body : string)
    (mi : MessagingInfo) (h : Incoming) :
  In (Called h) (fst (dispatch env hdr body mi)) ->
  match code_route (method hdr) with
  | Some GetHandler => h = incomingUnknownGetRequest
  | Some HeadHandler => h = incomingUnknownHeadRequest
  | Some PostHandler =>
      h = incomingUnknownPostRequest \/ h = incomingControlRequest
  | Some NotifyHandler => h = incomingNotifyMessage
  | Some SubscribeHandler => h = incomingSubscriptionRequest
  | Some UnsubscribeHandler => h = incomingUnsubscriptionRequest
  | None => False
  end.
Proof.
  unfold dispatch, code_route.
  repeat match goal with
  | |- context [if ?b then _ else _] => destruct b
  end;
  unfold processGet, processHead, processPost, processNotifyMessage,
    processSubscription, processUnsubscription;
  split_collaborators env;
  intros H; repeat events_step; auto.
Qed.

Lemma iteration_calls (env : Env) (r : Round) (h : Incoming) :
  In (Called h) (fst (iteration env r)) ->
  exists mi,
    In (Called h) (fst (dispatch env (requestHeader r) (body r) mi)).
Proof.
  unfold iteration.
  destruct (rv r); simpl; try tauto.
  destruct (isValid (requestHeader r)); simpl;
    [|intros [H|H]; [discriminate|contradiction]].
  destruct (Qt.isEmpty _); simpl;
    [intros [H|H]; [discriminate|contradiction]|].
  destruct (exiting_after_receive r); simpl; [tauto|].
  match goal with
  | |- context [dispatch env ?hdr ?b ?mi] =>
      destruct (dispatch env hdr b mi) as [evs [[[|] mi']|]] eqn:E;
      intros H; exists mi; rewrite E
  end; simpl; auto.
  destruct (negb (keepAlive mi')); exact H.
Qed.

Lemma loop_calls (env : Env) (rounds : list Round) (h : Incoming) :
  In (Called h) (fst (loop env rounds)) ->
  exists r, In r rounds /\ In (Called h) (fst (iteration env r)).
Proof.
  induction rounds as [|r rest IH]; simpl; [tauto|].
  destruct (guard r); simpl; [|tauto].
  destruct (iteration env r) as [evs [|]] eqn:E.
  - destruct (loop env rest) as [evs' left]. simpl in *. intros H.
    apply in_app_or in H as [H|H].
    + exists r. rewrite E. auto.
    + destruct (IH H) as (r' & Hin & Hc). exists r'. auto.
  - simpl. intros H. exists r. rewrite E. auto.
Qed.

(** The server that overrides nothing runs the default implementation in
    every incoming* function. *)
Lemma baseEnv_runs_default (h : Incoming) (hdr : QHttpRequestHeader)
    (mi : MessagingInfo) :
  call baseEnv h hdr mi
  = (Called h :: fst (incoming_default baseEnv mi),
     snd (incoming_default baseEnv mi)).
Proof. reflexivity. Qed.

(** processHead is dead code: whatever the server is extended with and
    whatever arrives, incomingUnknownHeadRequest is never called. *)
Lemma head_handler_never_called (env : Env) (rounds : list Round)
    (connectedAfterLoop : bool) :
  ~ In (Called incomingUnknownHeadRequest)
       (fst (processRequest env rounds connectedAfterLoop)).
Proof.
  unfold processRequest.
  destruct (loop env rounds) as [evs left] eqn:E. simpl. intros H.
  apply in_app_or in H as [H|H].
  - assert (Hl : In (Called incomingUnknownHeadRequest)
                    (fst (loop env rounds))) by now rewrite E.
    apply loop_calls in Hl as (r & _ & Hr).
    apply iteration_calls in Hr as (mi & Hd).
    apply dispatch_calls in Hd.
    rewrite code_route_strict_route in Hd.
    unfold Spec.strict_route in Hd.
    destruct (Spec.eq_nocase _ "HEAD"); [exact Hd|].
    repeat match type of Hd with
    | context [if ?b then _ else _] => destruct b
    end;
    first [discriminate Hd | contradiction | destruct Hd; discriminate].
  - destruct connectedAfterLoop; simpl in H; [|contradiction].
    destruct H as [H|H]; [discriminate|contradiction].
Qed.

End ProcessRequest.

Section RequestLoop.

Import HHttpHandler HHttpServer.

(** C1 at the failing input.  A well-formed HEAD request with a HOST header
    arrives on a connected socket at a server that overrides nothing.  The
    routing table of the specification sends HEAD to the HEAD handler; the
    branch of processRequest for HEAD is never taken, the request falls
    through to the last branch: 405 is sent, the loop is left and the
    socket is closed, and processHead is not called. *)
Theorem head_request_answered_405 :
  let hdr := mkHeader true "HEAD" "/description.xml"
                      [("HOST", "192.0.2.10:49200")] in
  let r := mkRound false true 0 Success hdr "" false in
  Spec.strict_route "HEAD" = Some HeadHandler
  /\ code_route "HEAD" = None
  /\ processRequest baseEnv [r] true
     = ([Sent MethotNotAllowed; Disconnected], [])
  /\ ~ In (Called incomingUnknownHeadRequest)
          (fst (processRequest baseEnv [r] true)).
Proof.
  cbv zeta. repeat split; try reflexivity.
  apply head_handler_never_called.
Qed.

(** For whatever the server is extended with: a HEAD request that reaches
    the method test is answered like a request with an unknown method. *)
Lemma head_request_not_allowed (env : Env) (pre rest : list Round)
    (r : Round) (connectedAfterLoop : bool) :
  Forall (fun r' => goes_on env r' = true) pre ->
  reads_request r ->
  well_formed_with_host (requestHeader r) ->
  exiting_after_receive r = false ->
  Spec.eq_nocase (method (requestHeader r)) "HEAD" = true ->
  processRequest env (pre ++ r :: rest) connectedAfterLoop
  = (events_of env pre ++ [Sent MethotNotAllowed]
       ++ closing connectedAfterLoop,
     rest).
Proof.
  intros Hpre [Hg Hrv] Hwf Hx Hm.
  apply processRequest_breaks; try assumption.
  apply iteration_no_route; try assumption.
  now rewrite code_route_strict_route, Hm.
Qed.

(** The other methods are routed as the specification lists them: a GET
    request calls the GET hook first ... *)
Lemma get_request_routed (env : Env) (hdr : QHttpRequestHeader)
    (body : string) (mi : MessagingInfo) :
  Spec.eq_nocase (method hdr) "GET" = true ->
  exists evs,
    fst (dispatch env hdr body mi) = Called incomingUnknownGetRequest :: evs.
Proof.
  intros Hm. unfold dispatch. rewrite compare_eq_nocase, Hm.
  unfold processGet, bind, call.
  destruct (incoming env incomingUnknownGetRequest hdr mi) as [scs [mi'|]];
    simpl; eauto.
Qed.

(** ... and a POST request whose SOAPACTION header has a '#' behind its
    first character, whose body is a SOAP message and whose path is not
    blank calls the control hook first. *)
Lemma post_request_routed (env : Env) (hdr : QHttpRequestHeader)
    (body : string) (mi : MessagingInfo) :
  Spec.eq_nocase (method hdr) "POST" = true ->
  0 < Qt.indexOf (value hdr "SOAPACTION") "#"%char ->
  setContent env body = true ->
  Qt.isEmpty (Qt.simplified (path hdr)) = false ->
  exists evs,
    fst (dispatch env hdr body mi) = Called incomingControlRequest :: evs.
Proof.
  intros Hm Hidx Hsoap Hpath. unfold dispatch.
  rewrite !compare_eq_nocase, head_condition_false, Hm.
  assert (Hg : Spec.eq_nocase (method hdr) "GET" = false).
  { unfold Spec.eq_nocase in *. apply String.eqb_eq in Hm. now rewrite Hm. }
  rewrite Hg. unfold processPost.
  destruct (Z.leb_spec (Qt.indexOf (value hdr "SOAPACTION") "#"%char) 0);
    [lia|].
  assert (Hmid : Qt.isEmpty
                   (Qt.mid (value hdr "SOAPACTION")
                           (Qt.indexOf (value hdr "SOAPACTION") "#"%char))
                 = false).
  { clear - Hidx. unfold Qt.mid.
    induction (value hdr "SOAPACTION") as [|c s IH]; simpl in *; [lia|].
    destruct (Ascii.eqb c "#"); [lia|].
    destruct (Z.ltb_spec (Qt.indexOf s "#"%char) 0); [lia|].
    destruct (Z.eq_dec (Qt.indexOf s "#"%char) 0) as [E|N].
    - rewrite E. simpl. destruct s as [|c' s']; simpl in *; [lia|].
      reflexivity.
    - rewrite Z2Nat.inj_add by lia. rewrite Nat.add_comm. simpl.
      apply IH. lia. }
  rewrite Hmid, Hsoap, Hpath. simpl.
  unfold bind, call.
  destruct (incoming env incomingControlRequest hdr mi) as [scs [mi'|]];
    simpl; eauto.
Qed.

(** C2, as stated, fails: the method is looked at only after the checks
    on the header and on m_exiting.  A PATCH request -- a method that is
    none of the six -- with a well-formed start line and no HOST header is
    answered 400 Bad Request, and 405 is never sent; the same request with
    a HOST header, read while the server is exiting, is answered nothing
    at all.  In both cases the loop is left and the socket is closed. *)
Lemma unknown_method_not_answered_405 :
  let no_host := mkRound false true 20 Success
                         (mkHeader true "PATCH" "/control" []) "" false in
  let exiting := mkRound false true 20 Success
                         (mkHeader true "PATCH" "/control"
                                   [("HOST", "192.0.2.10:49200")]) "" true in
  Spec.unknown_method "PATCH"
  /\ reads_request no_host
  /\ processRequest baseEnv [no_host] true
     = ([Sent BadRequest; Disconnected], [])
  /\ reads_request exiting
  /\ well_formed_with_host (requestHeader exiting)
  /\ processRequest baseEnv [exiting] true = ([Disconnected], [])
  /\ forall r,
       In r [no_host; exiting] ->
       ~ In (Sent MethotNotAllowed) (fst (processRequest baseEnv [r] true)).
Proof.
  cbv zeta. repeat split; try reflexivity.
  - intros name H.
    repeat (destruct H as [H|H]; [subst name; reflexivity|]).
    contradiction.
  - intros r [<-|[<-|[]]]; vm_compute;
      intros H; repeat (destruct H as [H|H]; [discriminate|]);
      contradiction.
Qed.

(** C2 (amended): a request that reaches the method test (the turn reads a
    request with a well-formed start line and a HOST header, and the server
    is not exiting) and whose method is none of GET, HEAD, POST, NOTIFY,
    SUBSCRIBE, UNSUBSCRIBE in any case is answered 405, and the loop of the
    connection ends there: the later turns are not entered and only the
    closing of the socket follows. *)
Theorem unknown_method_answered_405 (env : Env) (pre rest : list Round)
    (r : Round) (connectedAfterLoop : bool) :
  Forall (fun r' => goes_on env r' = true) pre ->
  reads_request r ->
  well_formed_with_host (requestHeader r) ->
  exiting_after_receive r = false ->
  Spec.unknown_method (method (requestHeader r)) ->
  processRequest env (pre ++ r :: rest) connectedAfterLoop
  = (events_of env pre ++ [Sent MethotNotAllowed]
       ++ closing connectedAfterLoop,
     rest).
Proof.
  intros Hpre [Hg Hrv] Hwf Hx Hm.
  apply processRequest_breaks; try assumption.
  apply iteration_no_route; try assumption.
  now apply code_route_unknown.
Qed.

Lemma unknown_method_answered_405_witness :
  let host := [("Host", "192.0.2.10:49200")] in
  let idle := mkRound false true 10 Timeout (mkHeader false "" "" []) ""
                      false in
  let r := mkRound false true 20 Success
                   (mkHeader true "Patch" "/control" host) "" false in
  let later := mkRound false true 30 Success
                       (mkHeader true "GET" "/description.xml" host) ""
                       false in
  processRequest baseEnv ([idle] ++ r :: [later]) true
  = ([Sent MethotNotAllowed; Disconnected], [later]).
Proof.
  intros host idle r later.
  apply (unknown_method_answered_405 baseEnv [idle] [later] r true).
  - repeat constructor.
  - split; reflexivity.
  - split; reflexivity.
  - reflexivity.
  - unfold Spec.unknown_method. simpl. intros name H.
    repeat (destruct H as [H|H]; [subst name; reflexivity|]).
    contradiction.
Defined.

(** C7: a request whose start line is ill-formed or whose HOST header is
    missing is answered 400 Bad Request, and the loop of the connection
    ends there: the later turns are not entered, and the socket, if still
    connected, is disconnected. *)
Theorem bad_request_answered_400 (env : Env) (pre rest : list Round)
    (r : Round) (connectedAfterLoop : bool) :
  Forall (fun r' => goes_on env r' = true) pre ->
  reads_request r ->
  isValid (requestHeader r) = false \/ Spec.host_missing (requestHeader r) ->
  processRequest env (pre ++ r :: rest) connectedAfterLoop
  = (events_of env pre ++ [Sent BadRequest] ++ closing connectedAfterLoop,
     rest).
Proof.
  intros Hpre [Hg Hrv] Hbad.
  apply processRequest_breaks; try assumption.
  apply iteration_bad_request; [assumption|].
  destruct Hbad as [H|H]; [now left | right].
  now apply host_missing_value_empty.
Qed.

Lemma bad_request_answered_400_witness :
  let idle := mkRound false true 10 Timeout (mkHeader false "" "" []) ""
                      false in
  let r := mkRound false true 20 Success
                   (mkHeader true "GET" "/description.xml"
                             [("Connection", "keep-alive")]) "" false in
  let later := mkRound false true 30 Success
                       (mkHeader true "GET" "/description.xml"
                                 [("HOST", "192.0.2.10:49200")]) "" false in
  processRequest baseEnv ([idle] ++ r :: [later]) true
  = ([Sent BadRequest; Disconnected], [later]).
Proof.
  intros idle r later.
  apply (bad_request_answered_400 baseEnv [idle] [later] r true).
  - repeat constructor.
  - split; reflexivity.
  - right. unfold Spec.host_missing. simpl.
    intros k v [H|H]; [|contradiction].
    inversion H. reflexivity.
Defined.

End RequestLoop.

(* ===================================================================== *)
(** ** Properties of the action proxy *)
(* ===================================================================== *)

Section ActionProxy.

Import HClientAction.

Lemma run_snoc (evs : list Event) (e : Event) :
  run (evs ++ [e]) = step (run evs) e.
Proof. unfold run. now rewrite fold_left_app. Qed.

Lemma submitted_app (evs evs' : list Event) :
  submitted (evs ++ evs') = submitted evs ++ submitted evs'.
Proof.
  induction evs as [|[inv|] evs IH]; simpl; [reflexivity| |assumption].
  now rewrite IH.
Qed.

Lemma invariant_init : invariant [] init.
Proof. repeat split; reflexivity. Qed.

Lemma invariant_beginInvoke (sub : list string) (s : State)
    (inv : HInvocationInfo) :
  invariant sub s ->
  invariant (sub ++ [inv_inArgs inv]) (beginInvoke inv s).
Proof.
  destruct s as [reply args queue wire pending].
  unfold invariant, beginInvoke, invocationInProgress; simpl.
  intros (Hout & Hq & Hsub). destruct reply as [id|]; simpl.
  - repeat split; try assumption; try discriminate.
    + intros H. now destruct queue.
    + destruct queue as [|h t]; [destruct Hq as [_ Hq]; now discriminate Hq|].
      simpl in *. now rewrite Hsub, map_app, app_assoc.
  - destruct Hq as [Hq _]. rewrite (Hq eq_refl) in *. subst pending.
    simpl in *. repeat split; try discriminate.
    now rewrite Hsub, !app_nil_r.
Qed.

Lemma invariant_replyArrived (sub : list string) (s : State) :
  invariant sub s -> invariant sub (replyArrived s).
Proof.
  destruct s as [reply args queue wire pending].
  unfold invariant, replyArrived; simpl.
  intros (Hout & Hq & Hsub). destruct reply as [id|]; simpl;
    [|tauto].
  subst pending. simpl. rewrite Nat.eqb_refl. simpl.
  unfold invocationDone, invokeCompleted, deleteReply; simpl.
  destruct queue as [|h [|next t]]; simpl in *.
  - destruct Hq as [_ Hq]. now discriminate Hq.
  - repeat split; auto.
  - repeat split; try discriminate.
    now rewrite Hsub, <- app_assoc.
Qed.

Lemma invariant_run (evs : list Event) : invariant (submitted evs) (run evs).
Proof.
  induction evs as [|e evs IH] using rev_ind; [exact invariant_init|].
  rewrite run_snoc, submitted_app. destruct e as [inv|]; simpl.
  - now apply invariant_beginInvoke.
  - rewrite app_nil_r. now apply invariant_replyArrived.
Qed.

(** C8, on the proxy as the specification describes it: after any sequence
    of submissions and arriving replies
    - at most one request to the control URL is without its answer, and one
      is exactly when an invocation is in progress;
    - the requests posted so far, followed by the invocations waiting in
      the queue, are the submissions in their order (FIFO);
    - an invocation submitted while one is in progress is appended to the
      queue and nothing is posted for it;
    - when the reply arrives and an invocation is waiting, the first one
      waiting is posted next. *)
Theorem one_invocation_in_flight (evs : list Event) :
  let s := run evs in
  (List.length (outstanding s) <= 1)%nat
  /\ (invocationInProgress s = true
      <-> List.length (outstanding s) = 1%nat)
  /\ submitted evs
     = posted s ++ map inv_inArgs (List.tl (m_invocations s))
  /\ (forall inv,
        invocationInProgress s = true ->
        let s' := step s (BeginInvoke inv) in
        posted s' = posted s
        /\ outstanding s' = outstanding s
        /\ m_invocations s' = m_invocations s ++ [inv])
  /\ (forall current next waiting,
        m_invocations s = current :: next :: waiting ->
        let s' := step s ReplyArrived in
        posted s' = posted s ++ [inv_inArgs next]
        /\ m_invocations s' = next :: waiting
        /\ List.length (outstanding s') = 1%nat).
Proof.
  intros s. destruct (invariant_run evs) as (Hout & Hq & Hsub).
  fold s in Hout, Hq, Hsub.
  assert (Hlen : invocationInProgress s = true
                 <-> List.length (outstanding s) = 1%nat).
  { unfold invocationInProgress. rewrite Hout.
    destruct (m_reply s); simpl; split; congruence. }
  split; [|split; [exact Hlen|split; [exact Hsub|split]]].
  - rewrite Hout. destruct (m_reply s); simpl; lia.
  - intros inv Hp. simpl. unfold beginInvoke. simpl.
    unfold invocationInProgress in *. simpl.
    destruct (m_reply s); [|discriminate]. simpl. repeat split.
  - intros current next waiting Hqueue. simpl.
    unfold replyArrived.
    destruct (m_reply s) as [id|] eqn:Er.
    + unfold invocationDone, invokeCompleted, deleteReply,
        invocationInProgress, send, setInputArgs. simpl.
      rewrite Hqueue. simpl. rewrite Hout. simpl.
      rewrite Nat.eqb_refl. simpl. repeat split.
    + destruct Hq as [Hq _]. rewrite (Hq eq_refl) in Hqueue. discriminate.
Qed.

Lemma one_invocation_in_flight_witness :
  let a := mkInvocationInfo 1 "SetTarget(1)" in
  let b := mkInvocationInfo 2 "SetTarget(0)" in
  let c := mkInvocationInfo 3 "GetStatus()" in
  let s := run [BeginInvoke a; BeginInvoke b] in
  (posted (step s (BeginInvoke c)) = ["SetTarget(1)"]
   /\ outstanding (step s (BeginInvoke c)) = [0%nat]
   /\ m_invocations (step s (BeginInvoke c)) = [a; b; c])
  /\ (posted (step s ReplyArrived) = ["SetTarget(1)"; "SetTarget(0)"]
      /\ m_invocations (step s ReplyArrived) = [b]
      /\ List.length (outstanding (step s ReplyArrived)) = 1%nat).
Proof.
  intros a b c s.
  destruct (one_invocation_in_flight [BeginInvoke a; BeginInvoke b])
    as (_ & _ & _ & Hqueue & Hnext).
  split.
  - apply (Hqueue c). reflexivity.
  - apply (Hnext a b []). reflexivity.
Defined.

End ActionProxy.

(* ===================================================================== *)
(** ** Further properties of the SSDP messages *)
(* ===================================================================== *)

Section Messages.

Lemma defined_dec (usn : HDiscoveryType.t) :
  HDiscoveryType.type usn = HDiscoveryType.Undefined \/ Spec.defined usn.
Proof.
  unfold Spec.defined.
  destruct (HDiscoveryType.type usn); (now left) || (right; discriminate).
Qed.

Lemma isValid_defined (usn : HDiscoveryType.t) :
  negb (HDiscoveryType.Type_eqb (HDiscoveryType.type usn)
                                HDiscoveryType.Undefined) = true
  <-> Spec.defined usn.
Proof.
  unfold Spec.defined. rewrite negb_true_iff. split.
  - intros E H. apply Type_eqb_eq in H. congruence.
  - intros H. destruct (HDiscoveryType.Type_eqb _ _) eqn:E; [|reflexivity].
    apply Type_eqb_eq in E. contradiction.
Qed.

Lemma HProductTokens_eqb_refl (t : HProductTokens.t) :
  HProductTokens.eqb t t = true.
Proof.
  unfold HProductTokens.eqb.
  rewrite String.eqb_refl, Z.eqb_refl, !andb_true_r.
  now destruct (HProductTokens.isValid t).
Qed.

Lemma clamp_idempotent (x lo hi : Z) :
  lo <= hi -> Spec.clamp (Spec.clamp x lo hi) lo hi = Spec.clamp x lo hi.
Proof. unfold Spec.clamp. lia. Qed.

(** Either the arguments of the advertisement pass the validation or one of
    the conditions that end the constructor early holds. *)
Lemma available_accepted_or_rejected (location : Qt.QUrl)
    (serverTokens : HProductTokens.t) (usn : HDiscoveryType.t)
    (bootId configId : Z) :
  (Spec.defined usn
   /\ Qt.url_isValid location = true
   /\ Qt.url_isEmpty location = false
   /\ (Spec.advertises_v11 serverTokens -> 0 <= bootId /\ 0 <= configId))
  \/ (HDiscoveryType.type usn = HDiscoveryType.Undefined
      \/ Qt.url_isValid location = false
      \/ Qt.url_isEmpty location = true
      \/ (Spec.advertises_v11 serverTokens /\ (bootId < 0 \/ configId < 0))).
Proof.
  destruct (defined_dec usn) as [Hu|Hu]; [now right; left|].
  destruct (Qt.url_isValid location) eqn:Ev; [|now right; right; left].
  destruct (Qt.url_isEmpty location) eqn:Ee; [now right; right; right; left|].
  unfold Spec.advertises_v11.
  destruct (Z_lt_le_dec bootId 0); [|destruct (Z_lt_le_dec configId 0)].
  - destruct (Z_gt_le_dec
                (HProductTokens.upnpToken_minorVersion serverTokens) 0).
    + right; right; right; right. split; [assumption | now left].
    + left. repeat split; try assumption; lia.
  - destruct (Z_gt_le_dec
                (HProductTokens.upnpToken_minorVersion serverTokens) 0).
    + right; right; right; right. split; [assumption | now right].
    + left. repeat split; try assumption; lia.
  - left. repeat split; assumption.
Qed.

(** HResourceAvailable: the object is valid exactly when the arguments pass
    the validation of the constructor, strictly valid when the server tokens
    are valid too; a valid object carries the arguments it was given, a
    max-age within [5, 86400] and a search port that is -1 or within
    [49152, 65535], -1 unless UPnP/1.1 is advertised. *)
Theorem available_valid_iff_accepted (x : Z) (location : Qt.QUrl)
    (serverTokens : HProductTokens.t) (usn : HDiscoveryType.t)
    (bootId configId searchPort : Z) :
  let o := HResourceAvailable.new x location serverTokens usn bootId
             configId searchPort in
  (HResourceAvailable.isValid o false = true
   <-> Spec.defined usn
       /\ Qt.url_isValid location = true
       /\ Qt.url_isEmpty location = false
       /\ (Spec.advertises_v11 serverTokens -> 0 <= bootId /\ 0 <= configId))
  /\ (HResourceAvailable.isValid o true = true
      <-> HResourceAvailable.isValid o false = true
          /\ HProductTokens.isValid serverTokens = true)
  /\ (HResourceAvailable.isValid o false = true ->
      HResourceAvailable.usn o = usn
      /\ HResourceAvailable.location o = location
      /\ HResourceAvailable.serverTokens o = serverTokens
      /\ HResourceAvailable.bootId o = bootId
      /\ HResourceAvailable.configId o = configId
      /\ 5 <= HResourceAvailable.cacheControlMaxAge o <= 86400
      /\ (HResourceAvailable.searchPort o = -1
          \/ (Spec.advertises_v11 serverTokens
              /\ HResourceAvailable.searchPort o = searchPort
              /\ Spec.search_port_in_range searchPort))).
Proof.
  intros o. subst o.
  destruct (available_accepted_or_rejected location serverTokens usn bootId
              configId) as [Hacc | Hrej].
  - destruct Hacc as (Hu & Hv & He & Hids).
    rewrite available_accepts by assumption.
    unfold HResourceAvailable.isValid, HResourceAvailable.usn,
      HResourceAvailable.location, HResourceAvailable.serverTokens,
      HResourceAvailable.bootId, HResourceAvailable.configId,
      HResourceAvailable.cacheControlMaxAge, HResourceAvailable.searchPort.
    cbn [HResourceAvailable.m_usn HResourceAvailable.m_serverTokens
         HResourceAvailable.m_location HResourceAvailable.m_bootId
         HResourceAvailable.m_configId HResourceAvailable.m_searchPort
         HResourceAvailable.m_cacheControlMaxAge].
    rewrite (Type_eqb_undefined _ Hu). cbn [negb andb].
    split; [tauto|]. split.
    { destruct (HProductTokens.isValid serverTokens); intuition congruence. }
    intros _. repeat split; try reflexivity;
      try (pose proof (clamp_bounds x 5 86400); lia).
    unfold Spec.advertises_v11, Spec.search_port_in_range.
    destruct (Z.gtb_spec
                (HProductTokens.upnpToken_minorVersion serverTokens) 0);
      cbn [andb]; [|now left].
    destruct (Z.leb_spec 49152 searchPort), (Z.leb_spec searchPort 65535);
      cbn [andb]; try (now left).
    right. repeat split; lia.
  - rewrite (available_rejects x location serverTokens usn bootId configId
               searchPort Hrej).
    assert (Hno : ~ (Spec.defined usn
                     /\ Qt.url_isValid location = true
                     /\ Qt.url_isEmpty location = false
                     /\ (Spec.advertises_v11 serverTokens ->
                         0 <= bootId /\ 0 <= configId))).
    { intros (Hu & Hv & He & Hids). unfold Spec.defined in Hu.
      destruct Hrej as [H | [H | [H | [Hv11 H]]]]; try congruence.
      specialize (Hids Hv11). lia. }
    cbn. repeat split; try discriminate; try tauto.
Qed.

Lemma unavailable_accepts (usn : HDiscoveryType.t)
    (sourceLocation : HEndpoint.t) (bootId configId : Z) :
  Spec.defined usn ->
  (bootId < 0 /\ configId < 0) \/ (0 <= bootId /\ 0 <= configId) ->
  HResourceUnavailable.new usn sourceLocation bootId configId
  = if bootId <? 0
    then HResourceUnavailable.mkPrivate usn (-1) (-1) sourceLocation
    else HResourceUnavailable.mkPrivate usn bootId configId sourceLocation.
Proof.
  intros Hu Hids. unfold HResourceUnavailable.new.
  rewrite (Type_eqb_undefined _ Hu).
  destruct (Z.ltb_spec bootId 0), (Z.ltb_spec configId 0),
    (Z.geb_spec bootId 0), (Z.geb_spec configId 0);
    simpl; try reflexivity; lia.
Qed.

(** HResourceUnavailable: the object is valid exactly when the USN is
    defined and bootId and configId are not of mixed sign; a valid object
    carries the USN and the source it was given, and either both ids as
    given (both non-negative) or -1 for both (both negative). *)
Theorem unavailable_valid_iff_accepted (usn : HDiscoveryType.t)
    (sourceLocation : HEndpoint.t) (bootId configId : Z) (strict : bool) :
  let o := HResourceUnavailable.new usn sourceLocation bootId configId in
  (HResourceUnavailable.isValid o strict = true
   <-> Spec.defined usn /\ ~ Spec.mixed_signs2 bootId configId)
  /\ (HResourceUnavailable.isValid o strict = true ->
      HResourceUnavailable.usn o = usn
      /\ HResourceUnavailable.location o = sourceLocation
      /\ ((0 <= bootId /\ 0 <= configId
           /\ HResourceUnavailable.bootId o = bootId
           /\ HResourceUnavailable.configId o = configId)
          \/ (bootId < 0 /\ configId < 0
              /\ HResourceUnavailable.bootId o = -1
              /\ HResourceUnavailable.configId o = -1))).
Proof.
  intros o. subst o.
  destruct (defined_dec usn) as [Hu|Hu].
  { rewrite unavailable_rejects by now left.
    cbn. split; [split|]; try discriminate.
    intros [H _]. exfalso. now apply H. }
  destruct (Z_lt_le_dec bootId 0) as [Hb|Hb],
    (Z_lt_le_dec configId 0) as [Hc|Hc].
  - rewrite unavailable_accepts by (assumption || lia).
    destruct (Z.ltb_spec bootId 0); [|lia].
    unfold HResourceUnavailable.isValid. cbn.
    rewrite (Type_eqb_undefined _ Hu). cbn.
    split; [split; [intros _; split; [assumption|unfold Spec.mixed_signs2; lia]
                   | reflexivity]|].
    intros _. repeat split. right. repeat split; assumption.
  - rewrite unavailable_rejects
      by (right; unfold Spec.mixed_signs2; lia).
    cbn. split; [split|]; try discriminate.
    intros [_ H]. exfalso. apply H. unfold Spec.mixed_signs2. lia.
  - rewrite unavailable_rejects
      by (right; unfold Spec.mixed_signs2; lia).
    cbn. split; [split|]; try discriminate.
    intros [_ H]. exfalso. apply H. unfold Spec.mixed_signs2. lia.
  - rewrite unavailable_accepts by (assumption || lia).
    destruct (Z.ltb_spec bootId 0); [lia|].
    unfold HResourceUnavailable.isValid. cbn.
    rewrite (Type_eqb_undefined _ Hu). cbn.
    split; [split; [intros _; split; [assumption|unfold Spec.mixed_signs2; lia]
                   | reflexivity]|].
    intros _. repeat split. left. repeat split; assumption.
Qed.

(** HResourceUpdate: the object is valid exactly when the USN is defined,
    the location is valid and the three ids are not of mixed sign; a valid
    object carries the USN and the location it was given, and either the
    three ids as given (all non-negative) with a search port that is the
    given one if within [49152, 65535] and -1 otherwise, or -1 for the
    three ids and the search port (all ids negative). *)
Theorem update_valid_iff_accepted (location : Qt.QUrl)
    (usn : HDiscoveryType.t) (bootId configId nextBootId searchPort : Z)
    (strict : bool) :
  let o := HResourceUpdate.new location usn bootId configId nextBootId
             searchPort in
  (HResourceUpdate.isValid o strict = true
   <-> Spec.defined usn
       /\ Qt.url_isValid location = true
       /\ ~ Spec.mixed_signs3 bootId configId nextBootId)
  /\ (HResourceUpdate.isValid o strict = true ->
      HResourceUpdate.usn o = usn
      /\ HResourceUpdate.location o = location
      /\ ((0 <= bootId /\ 0 <= configId /\ 0 <= nextBootId
           /\ HResourceUpdate.bootId o = bootId
           /\ HResourceUpdate.configId o = configId
           /\ HResourceUpdate.nextBootId o = nextBootId
           /\ ((Spec.search_port_in_range searchPort
                /\ HResourceUpdate.searchPort o = searchPort)
               \/ (~ Spec.search_port_in_range searchPort
                   /\ HResourceUpdate.searchPort o = -1)))
          \/ (bootId < 0 /\ configId < 0 /\ nextBootId < 0
              /\ HResourceUpdate.bootId o = -1
              /\ HResourceUpdate.configId o = -1
              /\ HResourceUpdate.nextBootId o = -1
              /\ HResourceUpdate.searchPort o = -1))).
Proof.
  intros o. subst o.
  destruct (defined_dec usn) as [Hu|Hu].
  { rewrite update_rejects by now left.
    cbn. split; [split|]; try discriminate.
    intros [H _]. exfalso. now apply H. }
  destruct (Qt.url_isValid location) eqn:Ev.
  2:{ rewrite update_rejects by (right; now left).
      cbn. split; [split|]; try discriminate.
      intros (_ & H & _). discriminate. }
  assert (Hcases :
    Spec.mixed_signs3 bootId configId nextBootId
    \/ (bootId < 0 /\ configId < 0 /\ nextBootId < 0)
    \/ (0 <= bootId /\ 0 <= configId /\ 0 <= nextBootId))
    by (unfold Spec.mixed_signs3; lia).
  destruct Hcases as [Hm | [Hneg | Hpos]].
  - rewrite update_rejects by (right; now right).
    cbn. split; [split|]; try discriminate.
    intros (_ & _ & H). exfalso. now apply H.
  - rewrite update_accepts by (assumption || now left).
    destruct (Z.ltb_spec bootId 0); [|lia].
    unfold HResourceUpdate.isValid. cbn.
    rewrite (Type_eqb_undefined _ Hu). cbn.
    split; [split; [intros _; repeat split; try assumption;
                    unfold Spec.mixed_signs3; lia
                   | reflexivity]|].
    intros _. repeat split. right. repeat split; lia.
  - rewrite update_accepts by (assumption || now right).
    destruct (Z.ltb_spec bootId 0); [lia|].
    unfold HResourceUpdate.isValid. cbn.
    rewrite (Type_eqb_undefined _ Hu). cbn.
    split; [split; [intros _; repeat split; try assumption;
                    unfold Spec.mixed_signs3; lia
                   | reflexivity]|].
    intros _. repeat split. left.
    unfold HResourceUpdate.searchPort, Spec.search_port_in_range. cbn.
    destruct (Z.leb_spec 49152 searchPort), (Z.leb_spec searchPort 65535);
      cbn; repeat split; try lia;
      solve [left; split; [lia|reflexivity]
            | right; split; [lia|reflexivity]].
Qed.

(** HDiscoveryRequest: the object is valid exactly when the search target
    is defined and MX is at least 1, strictly valid when the user agent is
    valid too; a valid object carries the search target and the user agent
    it was given and an MX within [1, 5], the given one if at most 5. *)
Theorem request_valid_iff_accepted (mx : Z) (st : HDiscoveryType.t)
    (userAgent : HProductTokens.t) :
  let o := HDiscoveryRequest.new mx st userAgent in
  (HDiscoveryRequest.isValid o false = true
   <-> Spec.defined st /\ 1 <= mx)
  /\ (HDiscoveryRequest.isValid o true = true
      <-> HDiscoveryRequest.isValid o false = true
          /\ HProductTokens.isValid userAgent = true)
  /\ (HDiscoveryRequest.isValid o false = true ->
      HDiscoveryRequest.searchTarget o = st
      /\ HDiscoveryRequest.userAgent o = userAgent
      /\ 1 <= HDiscoveryRequest.mx o <= 5
      /\ (mx <= 5 -> HDiscoveryRequest.mx o = mx)).
Proof.
  intros o. subst o.
  destruct (defined_dec st) as [Hu|Hu].
  { assert (E : HDiscoveryRequest.new mx st userAgent
                = HDiscoveryRequest.default).
    { unfold HDiscoveryRequest.new, HDiscoveryRequest.init.
      rewrite Hu. reflexivity. }
    rewrite E. cbn. repeat split; try discriminate;
      intros [H _]; first [discriminate H | exfalso; now apply H]. }
  destruct (Z_lt_le_dec mx 1) as [Hmx|Hmx].
  { rewrite discovery_request_rejects by assumption.
    cbn. repeat split; try discriminate; try lia;
      intros [H _]; first [discriminate H | exfalso; now apply H]. }
  rewrite discovery_request_accepts by assumption.
  unfold HDiscoveryRequest.isValid, HDiscoveryRequest.searchTarget,
    HDiscoveryRequest.userAgent, HDiscoveryRequest.mx. cbn.
  rewrite (Type_eqb_undefined _ Hu). cbn.
  split; [tauto|]. split.
  { destruct (HProductTokens.isValid userAgent); intuition congruence. }
  intros _. repeat split; lia.
Qed.

Lemma v11_default_response (now x date : Z) (location : Qt.QUrl)
    (serverTokens : HProductTokens.t) (usn : HDiscoveryType.t)
    (bootId configId searchPort : Z) :
  Spec.advertises_v11 serverTokens ->
  bootId < 0 \/ configId < 0 ->
  HDiscoveryResponse.new now x date location serverTokens usn bootId
                         configId searchPort = HDiscoveryResponse.default.
Proof.
  intros Hv Hids.
  unfold HDiscoveryResponse.new, Spec.advertises_v11 in *.
  destruct (HDiscoveryType.Type_eqb _ _); [reflexivity|].
  destruct (negb _); [reflexivity|].
  destruct (Z.gtb_spec (HProductTokens.upnpToken_minorVersion serverTokens) 0);
    [|lia].
  destruct (Z.ltb_spec bootId 0), (Z.ltb_spec configId 0);
    simpl; try reflexivity; lia.
Qed.

(** HDiscoveryResponse: the object is valid exactly when the USN is
    defined, the location is valid and, if UPnP/1.1 is advertised, bootId
    and configId are non-negative; strictly valid when the server tokens
    are valid too.  A valid object carries the arguments it was given, the
    search port included, the time of its construction and a max-age within
    [5, 86400]. *)
Theorem response_valid_iff_accepted (now x date : Z) (location : Qt.QUrl)
    (serverTokens : HProductTokens.t) (usn : HDiscoveryType.t)
    (bootId configId searchPort : Z) :
  let o := HDiscoveryResponse.new now x date location serverTokens usn
             bootId configId searchPort in
  (HDiscoveryResponse.isValid o false = true
   <-> Spec.defined usn
       /\ Qt.url_isValid location = true
       /\ (Spec.advertises_v11 serverTokens -> 0 <= bootId /\ 0 <= configId))
  /\ (HDiscoveryResponse.isValid o true = true
      <-> HDiscoveryResponse.isValid o false = true
          /\ HProductTokens.isValid serverTokens = true)
  /\ (HDiscoveryResponse.isValid o false = true ->
      HDiscoveryResponse.usn o = usn
      /\ HDiscoveryResponse.location o = location
      /\ HDiscoveryResponse.serverTokens o = serverTokens
      /\ HDiscoveryResponse.date o = Some now
      /\ HDiscoveryResponse.bootId o = bootId
      /\ HDiscoveryResponse.configId o = configId
      /\ HDiscoveryResponse.searchPort o = searchPort
      /\ 5 <= HDiscoveryResponse.cacheControlMaxAge o <= 86400).
Proof.
  intros o. subst o.
  assert (Hdefault :
    forall P Q : Prop, ~ P ->
      (HDiscoveryResponse.isValid HDiscoveryResponse.default false = true
       <-> P)
      /\ (HDiscoveryResponse.isValid HDiscoveryResponse.default true = true
          <-> HDiscoveryResponse.isValid HDiscoveryResponse.default false
              = true /\ HProductTokens.isValid serverTokens = true)
      /\ (HDiscoveryResponse.isValid HDiscoveryResponse.default false = true
          -> Q)).
  { intros P Q HP. cbn. repeat split; try discriminate; try tauto;
      intros [H _]; discriminate H. }
  destruct (defined_dec usn) as [Hu|Hu].
  { assert (E : HDiscoveryResponse.new now x date location serverTokens usn
                  bootId configId searchPort = HDiscoveryResponse.default).
    { unfold HDiscoveryResponse.new. rewrite Hu. reflexivity. }
    rewrite E. apply Hdefault. intros [H _]. now apply H. }
  destruct (Qt.url_isValid location) eqn:Ev.
  2:{ assert (E : HDiscoveryResponse.new now x date location serverTokens
                    usn bootId configId searchPort
                  = HDiscoveryResponse.default).
      { unfold HDiscoveryResponse.new.
        rewrite (Type_eqb_undefined _ Hu), Ev. reflexivity. }
      rewrite E. apply Hdefault. intros (_ & H & _). discriminate. }
  assert (Hcases :
    (Spec.advertises_v11 serverTokens /\ (bootId < 0 \/ configId < 0))
    \/ (Spec.advertises_v11 serverTokens -> 0 <= bootId /\ 0 <= configId))
    by (unfold Spec.advertises_v11; lia).
  destruct Hcases as [[Hv Hids] | Hids].
  - rewrite (v11_default_response now x date location serverTokens usn
               bootId configId searchPort Hv Hids).
    apply Hdefault. intros (_ & _ & H). specialize (H Hv). lia.
  - rewrite response_accepts by assumption.
    unfold HDiscoveryResponse.isValid, HDiscoveryResponse.usn,
      HDiscoveryResponse.location, HDiscoveryResponse.serverTokens,
      HDiscoveryResponse.date, HDiscoveryResponse.bootId,
      HDiscoveryResponse.configId, HDiscoveryResponse.searchPort,
      HDiscoveryResponse.cacheControlMaxAge. cbn.
    rewrite (Type_eqb_undefined _ Hu). cbn.
    split; [tauto|]. split.
    { destruct (HProductTokens.isValid serverTokens); intuition congruence. }
    intros _. repeat split;
      try (pose proof (clamp_bounds x 5 86400); lia).
Qed.

(** The constructors normalise: feeding an object's own fields, as its
    accessors give them, back to the constructor gives the object again --
    for ssdp:alive, ssdp:byebye, ssdp:update and M-SEARCH messages built
    from any arguments, accepted or not, and for a search response rebuilt
    at the same time. *)
Theorem constructors_are_idempotent :
  (forall x location serverTokens usn bootId configId searchPort,
     let o := HResourceAvailable.new x location serverTokens usn bootId
                configId searchPort in
     HResourceAvailable.new
       (HResourceAvailable.cacheControlMaxAge o)
       (HResourceAvailable.location o) (HResourceAvailable.serverTokens o)
       (HResourceAvailable.usn o) (HResourceAvailable.bootId o)
       (HResourceAvailable.configId o) (HResourceAvailable.searchPort o)
     = o)
  /\ (forall usn sourceLocation bootId configId,
     let o := HResourceUnavailable.new usn sourceLocation bootId configId in
     HResourceUnavailable.new
       (HResourceUnavailable.usn o) (HResourceUnavailable.location o)
       (HResourceUnavailable.bootId o) (HResourceUnavailable.configId o)
     = o)
  /\ (forall location usn bootId configId nextBootId searchPort,
     let o := HResourceUpdate.new location usn bootId configId nextBootId
                searchPort in
     HResourceUpdate.new
       (HResourceUpdate.location o) (HResourceUpdate.usn o)
       (HResourceUpdate.bootId o) (HResourceUpdate.configId o)
       (HResourceUpdate.nextBootId o) (HResourceUpdate.searchPort o)
     = o)
  /\ (forall mx st userAgent,
     let o := HDiscoveryRequest.new mx st userAgent in
     HDiscoveryRequest.new
       (HDiscoveryRequest.mx o) (HDiscoveryRequest.searchTarget o)
       (HDiscoveryRequest.userAgent o)
     = o)
  /\ (forall now x date date' location serverTokens usn bootId configId
             searchPort,
     let o := HDiscoveryResponse.new now x date location serverTokens usn
                bootId configId searchPort in
     HDiscoveryResponse.new now
       (HDiscoveryResponse.cacheControlMaxAge o) date'
       (HDiscoveryResponse.location o) (HDiscoveryResponse.serverTokens o)
       (HDiscoveryResponse.usn o) (HDiscoveryResponse.bootId o)
       (HDiscoveryResponse.configId o) (HDiscoveryResponse.searchPort o)
     = o).
Proof.
  split; [|split; [|split; [|split]]].
  - intros x location serverTokens usn bootId configId searchPort o. subst o.
    destruct (available_accepted_or_rejected location serverTokens usn
                bootId configId) as [(Hu & Hv & He & Hids) | Hrej].
    + rewrite (available_accepts x location serverTokens usn bootId configId
                 searchPort) by assumption.
      unfold HResourceAvailable.cacheControlMaxAge,
        HResourceAvailable.location, HResourceAvailable.serverTokens,
        HResourceAvailable.usn, HResourceAvailable.bootId,
        HResourceAvailable.configId, HResourceAvailable.searchPort.
      cbn [HResourceAvailable.m_usn HResourceAvailable.m_serverTokens
           HResourceAvailable.m_location HResourceAvailable.m_bootId
           HResourceAvailable.m_configId HResourceAvailable.m_searchPort
           HResourceAvailable.m_cacheControlMaxAge].
      rewrite available_accepts by assumption.
      rewrite clamp_idempotent by lia. f_equal.
      destruct (HProductTokens.upnpToken_minorVersion serverTokens >? 0);
        cbn [andb]; [|reflexivity].
      destruct (Z.leb_spec 49152 searchPort), (Z.leb_spec searchPort 65535);
        cbn [andb]; try reflexivity.
      destruct (Z.leb_spec 49152 searchPort), (Z.leb_spec searchPort 65535);
        cbn [andb]; try reflexivity; lia.
    + rewrite (available_rejects x _ _ _ _ _ searchPort Hrej). reflexivity.
  - intros usn sourceLocation bootId configId o. subst o.
    destruct (defined_dec usn) as [Hu|Hu];
      [rewrite (unavailable_rejects usn sourceLocation bootId configId)
         by (now left); reflexivity|].
    destruct (Z_lt_le_dec bootId 0) as [Hb|Hb],
      (Z_lt_le_dec configId 0) as [Hc|Hc];
      try (rewrite (unavailable_rejects usn sourceLocation bootId configId)
             by (right; unfold Spec.mixed_signs2; lia); reflexivity).
    + rewrite (unavailable_accepts usn sourceLocation bootId configId)
        by (assumption || lia).
      destruct (Z.ltb_spec bootId 0); [|lia]. cbn.
      rewrite unavailable_accepts by (assumption || lia). reflexivity.
    + rewrite (unavailable_accepts usn sourceLocation bootId configId)
        by (assumption || lia).
      destruct (Z.ltb_spec bootId 0); [lia|]. cbn.
      rewrite unavailable_accepts by (assumption || lia).
      destruct (Z.ltb_spec bootId 0); [lia|reflexivity].
  - intros location usn bootId configId nextBootId searchPort o. subst o.
    destruct (defined_dec usn) as [Hu|Hu];
      [rewrite (update_rejects location usn bootId configId nextBootId
                  searchPort) by (now left); reflexivity|].
    destruct (Qt.url_isValid location) eqn:Ev;
      [|rewrite (update_rejects location usn bootId configId nextBootId
                   searchPort) by (right; now left); reflexivity].
    assert (Hcases :
      Spec.mixed_signs3 bootId configId nextBootId
      \/ (bootId < 0 /\ configId < 0 /\ nextBootId < 0)
      \/ (0 <= bootId /\ 0 <= configId /\ 0 <= nextBootId))
      by (unfold Spec.mixed_signs3; lia).
    destruct Hcases as [Hm | [Hneg | Hpos]].
    + rewrite (update_rejects location usn bootId configId nextBootId
                 searchPort) by (right; now right). reflexivity.
    + rewrite (update_accepts location usn bootId configId nextBootId
                 searchPort) by (assumption || now left).
      destruct (Z.ltb_spec bootId 0); [|lia]. cbn.
      rewrite update_accepts by (assumption || (left; lia)). reflexivity.
    + rewrite (update_accepts location usn bootId configId nextBootId
                 searchPort) by (assumption || now right).
      destruct (Z.ltb_spec bootId 0); [lia|]. cbn.
      rewrite update_accepts by (assumption || now right).
      destruct (Z.ltb_spec bootId 0); [lia|]. f_equal.
      destruct (Z.leb_spec 49152 searchPort), (Z.leb_spec searchPort 65535);
        cbn [andb]; try reflexivity.
      destruct (Z.leb_spec 49152 searchPort), (Z.leb_spec searchPort 65535);
        cbn [andb]; try reflexivity; lia.
  - intros mx st userAgent o. subst o.
    destruct (defined_dec st) as [Hu|Hu].
    { unfold HDiscoveryRequest.new, HDiscoveryRequest.init.
      rewrite Hu. reflexivity. }
    destruct (Z_lt_le_dec mx 1) as [Hmx|Hmx];
      [rewrite (discovery_request_rejects mx st userAgent) by assumption;
       reflexivity|].
    rewrite (discovery_request_accepts mx st userAgent) by assumption. cbn.
    rewrite discovery_request_accepts by (assumption || lia).
    f_equal. lia.
  - intros now x date date' location serverTokens usn bootId configId
      searchPort o. subst o.
    destruct (defined_dec usn) as [Hu|Hu].
    { unfold HDiscoveryResponse.new. rewrite Hu. reflexivity. }
    destruct (Qt.url_isValid location) eqn:Ev.
    2:{ unfold HDiscoveryResponse.new.
        rewrite (Type_eqb_undefined _ Hu), Ev. reflexivity. }
    assert (Hcases :
      (Spec.advertises_v11 serverTokens /\ (bootId < 0 \/ configId < 0))
      \/ (Spec.advertises_v11 serverTokens -> 0 <= bootId /\ 0 <= configId))
      by (unfold Spec.advertises_v11; lia).
    destruct Hcases as [[Hv Hids] | Hids].
    + rewrite (v11_default_response now x date location serverTokens usn
                 bootId configId searchPort Hv Hids). reflexivity.
    + rewrite (response_accepts now x date location serverTokens usn bootId
                 configId searchPort) by assumption. cbn.
      rewrite response_accepts by assumption.
      now rewrite clamp_idempotent by lia.
Qed.

(** operator== of HDiscoveryResponse leaves the date out: two responses
    built from the same arguments at different times compare equal,
    although, when the arguments were accepted, they are different
    objects. *)
Theorem response_equality_ignores_date (now now' x date date' : Z)
    (location : Qt.QUrl) (serverTokens : HProductTokens.t)
    (usn : HDiscoveryType.t) (bootId configId searchPort : Z) :
  let o := HDiscoveryResponse.new now x date location serverTokens usn
             bootId configId searchPort in
  let o' := HDiscoveryResponse.new now' x date' location serverTokens usn
              bootId configId searchPort in
  HDiscoveryResponse.eqb o o' = true
  /\ (HDiscoveryResponse.isValid o false = true /\ now <> now' -> o <> o').
Proof.
  intros o o'.
  assert (Hfields :
    HDiscoveryResponse.m_serverTokens o = HDiscoveryResponse.m_serverTokens o'
    /\ HDiscoveryResponse.m_usn o = HDiscoveryResponse.m_usn o'
    /\ HDiscoveryResponse.m_location o = HDiscoveryResponse.m_location o'
    /\ HDiscoveryResponse.m_cacheControlMaxAge o
       = HDiscoveryResponse.m_cacheControlMaxAge o'
    /\ HDiscoveryResponse.m_bootId o = HDiscoveryResponse.m_bootId o'
    /\ HDiscoveryResponse.m_configId o = HDiscoveryResponse.m_configId o'
    /\ HDiscoveryResponse.m_searchPort o = HDiscoveryResponse.m_searchPort o').
  { subst o o'. unfold HDiscoveryResponse.new.
    destruct (HDiscoveryType.Type_eqb _ _); [now repeat split|].
    destruct (negb _); [now repeat split|].
    destruct (_ >? 0); [|now repeat split].
    destruct (_ || _); now repeat split. }
  destruct Hfields as (H1 & H2 & H3 & H4 & H5 & H6 & H7). split.
  - unfold HDiscoveryResponse.eqb. rewrite H1, H2, H3, H4, H5, H6, H7.
    now rewrite HProductTokens_eqb_refl, HDiscoveryType_eqb_refl,
      QUrl_eqb_refl, !Z.eqb_refl.
  - intros [Hvalid Hnow] E.
    assert (Hd : HDiscoveryResponse.m_date o = Some now).
    { subst o. revert Hvalid. unfold HDiscoveryResponse.new.
      destruct (HDiscoveryType.Type_eqb _ _); [discriminate|].
      destruct (negb _); [discriminate|].
      destruct (_ >? 0); [|reflexivity].
      destruct (_ || _); [discriminate|reflexivity]. }
    assert (Hd' : HDiscoveryResponse.m_date o' = Some now'
                  \/ HDiscoveryResponse.m_date o' = None).
    { subst o'. unfold HDiscoveryResponse.new.
      destruct (HDiscoveryType.Type_eqb _ _); [now right|].
      destruct (negb _); [now right|].
      destruct (_ >? 0); [|now left].
      destruct (_ || _); [now right|now left]. }
    rewrite E in Hd. destruct Hd' as [Hd'|Hd']; congruence.
Qed.

End Messages.

(* ===================================================================== *)
(** ** Further properties of the request loop *)
(* ===================================================================== *)

Section Connection.

Import HHttpHandler HHttpServer.

(** The body of the loop for a request that gets as far as the try block. *)
Lemma iteration_enters_try (env : Env) (r : Round) :
  enters_try r ->
  iteration env r
  = match dispatch env (requestHeader r) (body r) (prepared env r) with
    | (evs, None) => (evs, LoopBreak)
    | (evs, Some (true, _)) => (evs, LoopBreak)
    | (evs, Some (false, mi')) =>
        if negb (keepAlive mi') then (evs, LoopBreak) else (evs, LoopAgain)
    end.
Proof.
  intros ([_ Hrv] & [Hv Hh] & Hx). unfold iteration, prepared.
  now rewrite Hrv, Hv, Hh, Hx.
Qed.

Lemma processRequest_goes_on (env : Env) (r : Round) (rest : list Round)
    (connectedAfterLoop : bool) (evs : list Event) :
  guard r = true ->
  iteration env r = (evs, LoopAgain) ->
  processRequest env (r :: rest) connectedAfterLoop
  = (evs ++ fst (processRequest env rest connectedAfterLoop),
     snd (processRequest env rest connectedAfterLoop)).
Proof.
  intros Hg Hi. unfold processRequest. simpl. rewrite Hg, Hi.
  destruct (loop env rest) as [evs' left]. simpl.
  now rewrite app_assoc.
Qed.

(** A receive that times out sends nothing and does not end the
    connection: as long as the loop condition holds, the turns that time
    out leave no trace. *)
Theorem timeouts_are_skipped (env : Env) (idle rounds : list Round)
    (connectedAfterLoop : bool) :
  Forall (fun r => guard r = true /\ rv r = Timeout) idle ->
  processRequest env (idle ++ rounds) connectedAfterLoop
  = processRequest env rounds connectedAfterLoop.
Proof.
  induction 1 as [|r idle [Hg Hrv] _ IH]; [reflexivity|].
  simpl. rewrite (processRequest_goes_on env r (idle ++ rounds) _ []).
  - rewrite IH. now destruct (processRequest env rounds connectedAfterLoop).
  - exact Hg.
  - unfold iteration. now rewrite Hrv.
Qed.

Lemma timeouts_are_skipped_witness :
  let idle := mkRound false true 29000 Timeout (mkHeader false "" "" []) ""
                      false in
  let get := mkRound false true 29500 Success
                     (mkHeader true "GET" "/description.xml"
                               [("HOST", "192.0.2.10:49200")]) "" false in
  processRequest baseEnv ([idle; idle] ++ [get]) true
  = processRequest baseEnv [get] true.
Proof.
  intros idle get.
  apply (timeouts_are_skipped baseEnv [idle; idle] [get] true).
  repeat constructor.
Defined.

(** When the loop condition fails -- the server is exiting, the socket is
    no longer connected, or 30000 ms have passed since the last request --
    nothing more is read from the connection: the turn is not entered and
    only the closing of the socket follows. *)
Theorem loop_condition_ends_connection (env : Env) (pre rest : list Round)
    (r : Round) (connectedAfterLoop : bool) :
  Forall (fun r' => goes_on env r' = true) pre ->
  exiting_at_guard r = true \/ connected r = false \/ 30000 <= elapsed r ->
  processRequest env (pre ++ r :: rest) connectedAfterLoop
  = (events_of env pre ++ closing connectedAfterLoop, r :: rest).
Proof.
  intros Hpre Hcond. unfold processRequest.
  rewrite loop_goes_on by assumption.
  assert (Hg : guard r = false).
  { unfold guard. destruct Hcond as [H | [H | H]].
    - now rewrite H.
    - rewrite H. now destruct (exiting_at_guard r).
    - destruct (Z.ltb_spec (elapsed r) 30000); [lia|].
      now rewrite andb_false_r. }
  simpl. rewrite Hg. simpl. now rewrite app_nil_r.
Qed.

Lemma loop_condition_ends_connection_witness :
  let hdr := mkHeader true "GET" "/description.xml"
                      [("HOST", "192.0.2.10:49200")] in
  let idle := mkRound false true 29000 Timeout hdr "" false in
  let late := mkRound false true 30000 Success hdr "" false in
  processRequest baseEnv ([idle] ++ late :: []) true
  = ([Disconnected], [late]).
Proof.
  intros hdr idle late.
  apply (loop_condition_ends_connection baseEnv [idle] [] late true).
  - repeat constructor.
  - right. right. simpl. lia.
Defined.

(** The connection ends without a response when receive fails (neither
    Success nor Timeout), and when a well-formed request has been read but
    the server is found exiting before the method test: the request is
    dropped. *)
Theorem connection_ends_without_response (env : Env)
    (pre rest : list Round) (r : Round) (connectedAfterLoop : bool) :
  Forall (fun r' => goes_on env r' = true) pre ->
  guard r = true ->
  rv r = Failure
  \/ (rv r = Success /\ well_formed_with_host (requestHeader r)
      /\ exiting_after_receive r = true) ->
  processRequest env (pre ++ r :: rest) connectedAfterLoop
  = (events_of env pre ++ closing connectedAfterLoop, rest).
Proof.
  intros Hpre Hg Hcase.
  change (closing connectedAfterLoop)
    with ([] ++ closing connectedAfterLoop).
  apply processRequest_breaks; try assumption.
  unfold iteration.
  destruct Hcase as [Hrv | (Hrv & [Hv Hh] & Hx)]; rewrite Hrv;
    [reflexivity|].
  now rewrite Hv, Hh, Hx.
Qed.

Lemma connection_ends_without_response_witness :
  let hdr := mkHeader true "GET" "/description.xml"
                      [("HOST", "192.0.2.10:49200")] in
  let failed := mkRound false true 10 Failure hdr "" false in
  let dropped := mkRound false true 10 Success hdr "" true in
  processRequest baseEnv ([] ++ failed :: [dropped]) true
  = ([Disconnected], [dropped])
  /\ processRequest baseEnv ([] ++ dropped :: [failed]) false
     = ([], [failed]).
Proof.
  intros hdr failed dropped. split.
  - apply (connection_ends_without_response baseEnv [] [dropped] failed true).
    + constructor.
    + reflexivity.
    + now left.
  - apply (connection_ends_without_response baseEnv [] [failed] dropped
             false).
    + constructor.
    + reflexivity.
    + right. repeat split; reflexivity.
Defined.

(** An HException thrown while the request is handled ends the connection,
    whatever keep-alive the client asked for: the events up to the throw
    are followed by the closing of the socket only. *)
Theorem exception_ends_connection (env : Env) (pre rest : list Round)
    (r : Round) (connectedAfterLoop : bool) (evs : list Event) :
  Forall (fun r' => goes_on env r' = true) pre ->
  enters_try r ->
  dispatch env (requestHeader r) (body r) (prepared env r) = (evs, None) ->
  processRequest env (pre ++ r :: rest) connectedAfterLoop
  = (events_of env pre ++ evs ++ closing connectedAfterLoop, rest).
Proof.
  intros Hpre Htry Hd.
  apply processRequest_breaks; try assumption.
  - now destruct Htry as ([Hg _] & _).
  - now rewrite iteration_enters_try, Hd.
Qed.


Lemma exception_ends_connection_witness :
  let get := mkRound false true 10 Success
                     (mkHeader true "GET" "/description.xml"
                               [("HOST", "192.0.2.10:49200")]) "" false in
  processRequest throwingEnv ([] ++ get :: [get]) true
  = ([Called incomingUnknownGetRequest; Disconnected], [get]).
Proof.
  intros get.
  apply (exception_ends_connection throwingEnv [] [get] get true
           [Called incomingUnknownGetRequest]).
  - constructor.
  - repeat split; reflexivity.
  - reflexivity.
Defined.


(** *** What the process* functions do with a request *)

Lemma mid_at_hash_not_empty (s : string) :
  0 <= Qt.indexOf s "#"%char ->
  Qt.isEmpty (Qt.mid s (Qt.indexOf s "#"%char)) = false.
Proof.
  unfold Qt.mid.
  induction s as [|c s IH]; simpl; [lia|].
  destruct (Ascii.eqb c "#"); [reflexivity|].
  destruct (Z.ltb_spec (Qt.indexOf s "#"%char) 0); [lia|]. intros _.
  rewrite Z2Nat.inj_add by lia. rewrite Nat.add_comm. simpl.
  apply IH. lia.
Qed.

(** The second test of processPost, on the action name, never fires: the
    name starts at the '#' and is not empty. *)
Lemma processPost_branches (env : Env) (hdr : QHttpRequestHeader)
    (body : string) :
  processPost env hdr body
  = if Qt.indexOf (value hdr "SOAPACTION") "#"%char <=? 0 then
      bind (call env incomingUnknownPostRequest hdr) (fun _ => ret Success)
    else if negb (setContent env body) then
      bind (mi_setKeepAlive false) (fun _ => send env BadRequest)
    else if Qt.isEmpty (Qt.simplified (path hdr)) then
      bind (mi_setKeepAlive false) (fun _ => send env BadRequest)
    else
      bind (call env incomingControlRequest hdr) (fun _ => ret Success).
Proof.
  unfold processPost.
  destruct (Z.leb_spec (Qt.indexOf (value hdr "SOAPACTION") "#"%char) 0);
    [reflexivity|].
  now rewrite mid_at_hash_not_empty by lia.
Qed.

Lemma method_tests (hdr : QHttpRequestHeader) (name : string) :
  is_method hdr name ->
  Qt.toLower (method hdr) = Qt.toLower name.
Proof.
  unfold is_method. rewrite compare_zero. cbn [Qt.fold_case].
  apply String.eqb_eq.
Qed.

(** The method tests up to the one for [name] fail for a request whose
    method is [name]. *)
Lemma dispatch_post (env : Env) (hdr : QHttpRequestHeader) (body : string) :
  is_method hdr "POST" ->
  dispatch env hdr body
  = bind (processPost env hdr body) (fun _ => ret false).
Proof.
  intros H. pose proof (method_tests hdr "POST" H) as E.
  unfold dispatch. rewrite head_condition_false, !compare_zero.
  cbn [Qt.fold_case]. now rewrite E.
Qed.

Lemma dispatch_get (env : Env) (hdr : QHttpRequestHeader) (body : string) :
  is_method hdr "GET" ->
  dispatch env hdr body = bind (processGet env hdr) (fun _ => ret false).
Proof.
  intros H. unfold dispatch. unfold is_method in H. now rewrite H.
Qed.

Lemma dispatch_notify (env : Env) (hdr : QHttpRequestHeader)
    (body : string) :
  is_method hdr "NOTIFY" ->
  dispatch env hdr body
  = bind (processNotifyMessage env hdr body) (fun _ => ret false).
Proof.
  intros H. pose proof (method_tests hdr "NOTIFY" H) as E.
  unfold dispatch. rewrite head_condition_false, !compare_zero.
  cbn [Qt.fold_case]. now rewrite E.
Qed.

Lemma dispatch_subscribe (env : Env) (hdr : QHttpRequestHeader)
    (body : string) :
  is_method hdr "SUBSCRIBE" ->
  dispatch env hdr body
  = bind (processSubscription env hdr) (fun _ => ret false).
Proof.
  intros H. pose proof (method_tests hdr "SUBSCRIBE" H) as E.
  unfold dispatch. rewrite head_condition_false, !compare_zero.
  cbn [Qt.fold_case]. now rewrite E.
Qed.

Lemma dispatch_unsubscribe (env : Env) (hdr : QHttpRequestHeader)
    (body : string) :
  is_method hdr "UNSUBSCRIBE" ->
  dispatch env hdr body
  = bind (processUnsubscription env hdr) (fun _ => ret false).
Proof.
  intros H. pose proof (method_tests hdr "UNSUBSCRIBE" H) as E.
  unfold dispatch. rewrite head_condition_false, !compare_zero.
  cbn [Qt.fold_case]. now rewrite E.
Qed.

(** The second test of processPost never fires: the action name is cut
    from the SOAPACTION value at its '#', so it is not empty, and a POST
    request is an unknown POST only through the first test.  processPost
    is the chain of its three other tests. *)
Theorem action_name_test_is_dead (env : Env) (hdr : QHttpRequestHeader)
    (body : string) (mi : MessagingInfo) :
  let soapAction := value hdr "SOAPACTION" in
  (0 < Qt.indexOf soapAction "#"%char ->
   Qt.isEmpty (Qt.mid soapAction (Qt.indexOf soapAction "#"%char)) = false)
  /\ processPost env hdr body mi
     = (if Qt.indexOf soapAction "#"%char <=? 0 then
          bind (call env incomingUnknownPostRequest hdr)
               (fun _ => ret Success)
        else if negb (setContent env body) then
          bind (mi_setKeepAlive false) (fun _ => send env BadRequest)
        else if Qt.isEmpty (Qt.simplified (path hdr)) then
          bind (mi_setKeepAlive false) (fun _ => send env BadRequest)
        else
          bind (call env incomingControlRequest hdr)
               (fun _ => ret Success)) mi.
Proof.
  intros soapAction. split.
  - intros H. apply mid_at_hash_not_empty. lia.
  - now rewrite processPost_branches.
Qed.

(** A POST request without a usable SOAPACTION header -- the header is
    missing, holds no '#', or starts with it -- is handed to
    incomingUnknownPostRequest: this call and the responses of the hook are
    all that happens. *)
Theorem post_without_action_is_unknown (env : Env)
    (hdr : QHttpRequestHeader) (body : string) (mi : MessagingInfo) :
  is_method hdr "POST" ->
  Qt.indexOf (value hdr "SOAPACTION") "#"%char <= 0 ->
  fst (dispatch env hdr body mi)
  = Called incomingUnknownPostRequest
    :: map Sent (fst (incoming env incomingUnknownPostRequest hdr mi)).
Proof.
  intros Hm Hidx. rewrite dispatch_post by assumption.
  rewrite processPost_branches.
  destruct (Z.leb_spec (Qt.indexOf (value hdr "SOAPACTION") "#"%char) 0);
    [|lia].
  unfold bind, call, ret.
  destruct (incoming env incomingUnknownPostRequest hdr mi) as [scs [mi'|]];
    simpl; now rewrite ?app_nil_r.
Qed.

Lemma post_without_action_is_unknown_witness :
  let hdr := mkHeader true "post" "/control/switch"
                      [("HOST", "192.0.2.10:49200")] in
  fst (dispatch baseEnv hdr "" (mkMessagingInfo "192.0.2.10:49200" true))
  = [Called incomingUnknownPostRequest; Sent MethotNotAllowed].
Proof.
  intros hdr.
  apply (post_without_action_is_unknown baseEnv hdr ""
           (mkMessagingInfo "192.0.2.10:49200" true)).
  - reflexivity.
  - simpl. lia.
Defined.

(** A POST request with a SOAPACTION header whose body is not a SOAP
    message, or whose path is blank, is answered 400 Bad Request with
    keep-alive turned off: no virtual function is called and the connection
    ends. *)
Theorem post_with_bad_body_or_path (env : Env) (pre rest : list Round)
    (r : Round) (connectedAfterLoop : bool) :
  Forall (fun r' => goes_on env r' = true) pre ->
  enters_try r ->
  is_method (requestHeader r) "POST" ->
  0 < Qt.indexOf (value (requestHeader r) "SOAPACTION") "#"%char ->
  setContent env (body r) = false
  \/ Qt.isEmpty (Qt.simplified (path (requestHeader r))) = true ->
  processRequest env (pre ++ r :: rest) connectedAfterLoop
  = (events_of env pre ++ [Sent BadRequest] ++ closing connectedAfterLoop,
     rest).
Proof.
  intros Hpre Htry Hm Hidx Hbad.
  apply processRequest_breaks; try assumption.
  - now destruct Htry as ([Hg _] & _).
  - rewrite iteration_enters_try by assumption.
    rewrite dispatch_post by assumption. rewrite processPost_branches.
    destruct (Z.leb_spec
                (Qt.indexOf (value (requestHeader r) "SOAPACTION") "#"%char)
                0); [lia|].
    destruct Hbad as [Hs | Hp].
    + rewrite Hs. reflexivity.
    + rewrite Hp. destruct (negb _); reflexivity.
Qed.

Lemma post_with_bad_body_or_path_witness :
  let hdr := mkHeader true "POST" "   "
               [("HOST", "192.0.2.10:49200");
                ("SOAPACTION", "urn:schemas-upnp-org:service:S:1#SetTarget")]
  in
  let r := mkRound false true 10 Success hdr "<Envelope/>" false in
  processRequest servingEnv ([] ++ r :: [r]) true
  = ([Sent BadRequest; Disconnected], [r]).
Proof.
  intros hdr r.
  apply (post_with_bad_body_or_path servingEnv [] [r] r true).
  - constructor.
  - repeat split; reflexivity.
  - reflexivity.
  - now vm_compute.
  - right. reflexivity.
Defined.

(** A SUBSCRIBE, UNSUBSCRIBE or NOTIFY request that HHttpHandler::receive
    does not turn into a request object (its return code is not Success or
    the parse result is not Success) is not handed to any virtual function:
    only the responses receive sent itself appear in the log, and the
    handling ends without exception with the messaging info as receive
    left it. *)
Theorem unparsed_gena_request_is_not_dispatched (env : Env)
    (hdr : QHttpRequestHeader) (body : string) (mi mi' : MessagingInfo)
    (scs : list StatusCode) (rv : ReturnValue) (parsed : bool) :
  rv <> Success \/ parsed = false ->
  (is_method hdr "SUBSCRIBE" ->
   receiveSubscribe env hdr mi = (scs, rv, parsed, mi') ->
   dispatch env hdr body mi = (map Sent scs, Some (false, mi')))
  /\ (is_method hdr "UNSUBSCRIBE" ->
      receiveUnsubscribe env hdr mi = (scs, rv, parsed, mi') ->
      dispatch env hdr body mi = (map Sent scs, Some (false, mi')))
  /\ (is_method hdr "NOTIFY" ->
      receiveNotify env hdr body mi = (scs, rv, parsed, mi') ->
      dispatch env hdr body mi = (map Sent scs, Some (false, mi'))).
Proof.
  intros Hfail. split; [|split]; intros Hm Hr.
  - rewrite dispatch_subscribe by assumption.
    unfold processSubscription, bind, receive_gena, ret. rewrite Hr.
    destruct rv, parsed; simpl; rewrite ?app_nil_r; try reflexivity;
      destruct Hfail; congruence.
  - rewrite dispatch_unsubscribe by assumption.
    unfold processUnsubscription, bind, receive_gena, ret. rewrite Hr.
    destruct rv, parsed; simpl; rewrite ?app_nil_r; try reflexivity;
      destruct Hfail; congruence.
  - rewrite dispatch_notify by assumption.
    unfold processNotifyMessage, bind, receive_gena, ret. rewrite Hr.
    destruct rv, parsed; simpl; rewrite ?app_nil_r; try reflexivity;
      destruct Hfail; congruence.
Qed.

Lemma unparsed_gena_request_is_not_dispatched_witness :
  let env := mkEnv (fun _ => true) (fun _ => Success) (fun _ => true)
                   (fun _ mi =>
                      ([OtherStatus 412], Success, false,
                       setKeepAlive mi false))
                   (fun _ mi => ([], Failure, true, mi))
                   (fun _ _ mi => ([BadRequest], Success, false, mi))
                   (fun _ _ mi => ([OtherStatus 200], Some mi)) in
  let mi := mkMessagingInfo "192.0.2.10:49200" true in
  let request m := mkHeader true m "/event/switch"
                            [("HOST", "192.0.2.10:49200")] in
  dispatch env (request "SUBSCRIBE") "" mi
  = ([Sent (OtherStatus 412)], Some (false, setKeepAlive mi false))
  /\ dispatch env (request "NOTIFY") "" mi
     = ([Sent BadRequest], Some (false, mi)).
Proof.
  intros env mi request. split.
  - destruct (unparsed_gena_request_is_not_dispatched env
                (request "SUBSCRIBE") "" mi (setKeepAlive mi false)
                [OtherStatus 412] Success false)
      as (Hsubscribe & _ & _); [now right|].
    apply Hsubscribe; reflexivity.
  - destruct (unparsed_gena_request_is_not_dispatched env
                (request "NOTIFY") "" mi mi [BadRequest] Success false)
      as (_ & _ & Hnotify); [now right|].
    apply Hnotify; reflexivity.
Defined.

(** *** What is called, and how often *)

Lemma calls_app (evs evs' : list Event) :
  calls (evs ++ evs') = (calls evs + calls evs')%nat.
Proof. unfold calls. now rewrite filter_app, length_app. Qed.

Lemma calls_responses (scs : list StatusCode) : calls (map Sent scs) = 0%nat.
Proof. unfold calls. induction scs; simpl; auto. Qed.

Lemma calls_call (env : Env) (h : Incoming) (hdr : QHttpRequestHeader)
    (mi : MessagingInfo) :
  calls (fst (call env h hdr mi)) = 1%nat.
Proof.
  unfold call. destruct (incoming env h hdr mi) as [scs [mi'|]]; simpl;
    change (calls (Called h :: map Sent scs))
      with (S (calls (map Sent scs)));
    now rewrite calls_responses.
Qed.

Lemma bind_fst {A B : Type} (m : M A) (k : A -> M B) (mi : MessagingInfo) :
  fst (bind m k mi)
  = fst (m mi)
    ++ match snd (m mi) with
       | Some (a, mi') => fst (k a mi')
       | None => []
       end.
Proof.
  unfold bind. destruct (m mi) as [evs [[a mi']|]]; simpl.
  - now destruct (k a mi').
  - now rewrite app_nil_r.
Qed.

Ltac count_calls :=
  repeat (rewrite ?bind_fst, ?calls_app, ?calls_call, ?calls_responses,
            ?app_nil_r;
          cbn [fst snd ret send mi_setKeepAlive];
          repeat match goal with
          | |- context [match snd ?x with _ => _ end] => destruct (snd x)
          | |- context [match ?p with (_, _) => _ end] => destruct p
          | |- context [if ?b then _ else _] => destruct b
          end);
  cbn [calls filter is_call length]; lia.

Lemma calls_dispatch (env : Env) (hdr : QHttpRequestHeader) (body : string)
    (mi : MessagingInfo) :
  (calls (fst (dispatch env hdr body mi)) <= 1)%nat.
Proof.
  unfold dispatch.
  repeat match goal with
  | |- context [if ?b then _ else _] => destruct b
  end;
  rewrite ?processPost_branches;
  unfold processGet, processHead, processNotifyMessage, processSubscription,
    processUnsubscription, receive_gena;
  repeat (rewrite ?bind_fst;
          repeat match goal with
          | |- context [receiveSubscribe env ?h ?m] =>
              destruct (receiveSubscribe env h m) as [[[? [| |]] [|]] ?]
          | |- context [receiveUnsubscribe env ?h ?m] =>
              destruct (receiveUnsubscribe env h m) as [[[? [| |]] [|]] ?]
          | |- context [receiveNotify env ?h ?b ?m] =>
              destruct (receiveNotify env h b m) as [[[? [| |]] [|]] ?]
          | |- context [if ?b then _ else _] => destruct b
          end;
          cbn [fst snd]);
  count_calls.
Qed.

Lemma calls_iteration (env : Env) (r : Round) :
  (calls (fst (iteration env r)) <= 1)%nat.
Proof.
  unfold iteration.
  destruct (rv r); try (cbn; lia).
  destruct (negb _); [cbn; lia|].
  destruct (Qt.isEmpty _); [cbn; lia|].
  destruct (exiting_after_receive r); [cbn; lia|].
  match goal with
  | |- context [dispatch env ?hdr ?b ?mi] =>
      pose proof (calls_dispatch env hdr b mi) as H;
      destruct (dispatch env hdr b mi) as [evs [[[|] mi']|]]
  end; simpl in *; try assumption.
  now destruct (negb (keepAlive mi')).
Qed.

(** At most one virtual function is called for each turn of the loop that
    is entered: the calls in the log and the turns left over together do
    not exceed the turns offered. *)
Theorem at_most_one_call_per_turn (env : Env) (rounds : list Round)
    (connectedAfterLoop : bool) :
  (calls (fst (processRequest env rounds connectedAfterLoop))
   + List.length (snd (processRequest env rounds connectedAfterLoop))
   <= List.length rounds)%nat.
Proof.
  unfold processRequest.
  assert (Hloop : (calls (fst (loop env rounds))
                   + List.length (snd (loop env rounds))
                   <= List.length rounds)%nat).
  { induction rounds as [|r rest IH]; simpl; [lia|].
    destruct (guard r); simpl; [|lia].
    pose proof (calls_iteration env r) as Hr.
    destruct (iteration env r) as [evs [|]]; simpl in *.
    - destruct (loop env rest) as [evs' left]. simpl in *.
      rewrite calls_app. lia.
    - lia. }
  destruct (loop env rounds) as [evs left]. simpl in *.
  rewrite calls_app.
  assert (calls (closing connectedAfterLoop) = 0%nat)
    by now destruct connectedAfterLoop.
  lia.
Qed.

Ltac trace_call :=
  repeat match goal with
  | H : In _ (fst (bind _ _ _)) |- _ =>
      apply bind_events in H as [H | (? & ? & _ & H)]
  | H : In (Called _) (fst (call _ _ _ _)) |- _ =>
      apply call_events in H; subst
  | H : In _ (fst (ret _ _)) |- _ => simpl in H; contradiction
  | H : In (Called _) (fst (send _ _ _)) |- _ =>
      simpl in H; destruct H as [H|H]; [discriminate | contradiction]
  | H : In _ (fst (mi_setKeepAlive _ _)) |- _ => simpl in H; contradiction
  | H : In (Called _) (fst (receive_gena _ _)) |- _ =>
      now apply receive_gena_no_call in H
  end.

(** What follows a GENA receive in the log is handled with the return
    code, the parse result and the messaging info of that receive. *)
Lemma after_receive_gena {B : Type}
    (receive : MessagingInfo ->
               list StatusCode * ReturnValue * bool * MessagingInfo)
    (k : ReturnValue * bool -> M B) (mi : MessagingInfo) (h : Incoming) :
  In (Called h) (fst (bind (receive_gena receive) k mi)) ->
  exists scs rv parsed mi',
    receive mi = (scs, rv, parsed, mi')
    /\ In (Called h) (fst (k (rv, parsed) mi')).
Proof.
  unfold bind, receive_gena.
  destruct (receive mi) as [[[scs rv] parsed] mi'].
  destruct (k (rv, parsed) mi') as [evs r] eqn:Ek. simpl. intros H.
  apply in_app_or in H as [H|H]; [now apply map_Sent_no_call in H|].
  exists scs, rv, parsed, mi'. now rewrite Ek.
Qed.

(** A virtual function is called only after the tests that lead to it. *)
Lemma dispatch_call_tested (env : Env) (hdr : QHttpRequestHeader)
    (body : string) (mi : MessagingInfo) (h : Incoming) :
  In (Called h) (fst (dispatch env hdr body mi)) ->
  tested_before env h hdr body mi.
Proof.
  unfold dispatch. rewrite head_condition_false.
  destruct (Qt.compare (method hdr) "GET" Qt.CaseInsensitive =? 0) eqn:Eget.
  { unfold processGet. intros Hin. trace_call. exact Eget. }
  destruct (Qt.compare (method hdr) "POST" Qt.CaseInsensitive =? 0)
    eqn:Epost.
  { rewrite processPost_branches.
    destruct (Z.leb_spec (Qt.indexOf (value hdr "SOAPACTION") "#"%char) 0).
    { intros Hin. trace_call. now split. }
    destruct (setContent env body) eqn:Esoap; cbn [negb].
    2:{ intros Hin. trace_call. }
    destruct (Qt.isEmpty (Qt.simplified (path hdr))) eqn:Epath.
    { intros Hin. trace_call. }
    intros Hin. trace_call. repeat split; assumption. }
  destruct (Qt.compare (method hdr) "NOTIFY" Qt.CaseInsensitive =? 0)
    eqn:Enotify.
  { unfold processNotifyMessage. intros Hin.
    apply bind_events in Hin as [Hin | (? & ? & _ & Hin)];
      [|simpl in Hin; contradiction].
    apply after_receive_gena in Hin
      as (scs & [| |] & [|] & mi' & Er & Hin); trace_call.
    split; [exact Enotify | now exists scs, mi']. }
  destruct (Qt.compare (method hdr) "SUBSCRIBE" Qt.CaseInsensitive =? 0)
    eqn:Esub.
  { unfold processSubscription. intros Hin.
    apply bind_events in Hin as [Hin | (? & ? & _ & Hin)];
      [|simpl in Hin; contradiction].
    apply after_receive_gena in Hin
      as (scs & [| |] & [|] & mi' & Er & Hin); trace_call.
    split; [exact Esub | now exists scs, mi']. }
  destruct (Qt.compare (method hdr) "UNSUBSCRIBE" Qt.CaseInsensitive =? 0)
    eqn:Eunsub.
  { unfold processUnsubscription. intros Hin.
    apply bind_events in Hin as [Hin | (? & ? & _ & Hin)];
      [|simpl in Hin; contradiction].
    apply after_receive_gena in Hin
      as (scs & [| |] & [|] & mi' & Er & Hin); trace_call.
    split; [exact Eunsub | now exists scs, mi']. }
  intros Hin. trace_call.
Qed.

Lemma iteration_call_origin (env : Env) (r : Round) (h : Incoming) :
  guard r = true ->
  In (Called h) (fst (iteration env r)) ->
  enters_try r
  /\ In (Called h)
        (fst (dispatch env (requestHeader r) (body r) (prepared env r))).
Proof.
  intros Hg. unfold iteration, prepared, enters_try, reads_request,
    well_formed_with_host.
  destruct (rv r); simpl; try tauto.
  destruct (isValid (requestHeader r)); simpl;
    [|intros [H|H]; [discriminate|contradiction]].
  destruct (Qt.isEmpty _); simpl;
    [intros [H|H]; [discriminate|contradiction]|].
  destruct (exiting_after_receive r); simpl; [tauto|].
  match goal with
  | |- context [dispatch env ?hdr ?b ?mi] =>
      destruct (dispatch env hdr b mi) as [evs [[[|] mi']|]] eqn:E
  end; simpl; intros H; repeat split; auto.
  destruct (negb (keepAlive mi')); exact H.
Qed.

Lemma loop_call_origin (env : Env) (rounds : list Round) (h : Incoming) :
  In (Called h) (fst (loop env rounds)) ->
  exists r,
    In r rounds /\ guard r = true /\ In (Called h) (fst (iteration env r)).
Proof.
  induction rounds as [|r rest IH]; simpl; [tauto|].
  destruct (guard r) eqn:Hg; simpl; [|tauto].
  destruct (iteration env r) as [evs [|]] eqn:E.
  - destruct (loop env rest) as [evs' left]. simpl in *. intros H.
    apply in_app_or in H as [H|H].
    + exists r. rewrite E. auto.
    + destruct (IH H) as (r' & Hin & Hg' & Hc). exists r'. auto.
  - simpl. intros H. exists r. rewrite E. auto.
Qed.

Lemma is_call_of_eq (h : Incoming) (e : Event) :
  is_call_of h e = true -> e = Called h.
Proof.
  destruct e as [sc|h'|]; simpl; try discriminate.
  destruct h, h'; simpl; intros H; try discriminate; reflexivity.
Qed.

(** No virtual function is called without cause: if [h] appears in the log
    of a connection, one of the turns offered was entered, read a
    well-formed request with a HOST header while the server was not
    exiting, and that request passed the tests that lead to [h] -- its
    method, and for the control and GENA functions the further checks of
    the process* function.  For incomingUnknownHeadRequest no request
    does. *)
Theorem calls_have_a_cause (env : Env) (rounds : list Round)
    (connectedAfterLoop : bool) (h : Incoming) :
  existsb (is_call_of h)
          (fst (processRequest env rounds connectedAfterLoop)) = true ->
  exists r,
    In r rounds
    /\ enters_try r
    /\ tested_before env h (requestHeader r) (body r) (prepared env r).
Proof.
  intros H. apply existsb_exists in H as (e & Hin & He).
  apply is_call_of_eq in He. subst e.
  unfold processRequest in Hin.
  destruct (loop env rounds) as [evs left] eqn:E. simpl in Hin.
  apply in_app_or in Hin as [Hin|Hin].
  - assert (Hl : In (Called h) (fst (loop env rounds))) by now rewrite E.
    apply loop_call_origin in Hl as (r & Hr & Hg & Hi).
    apply iteration_call_origin in Hi as [Htry Hd]; [|assumption].
    exists r. repeat split; try apply Htry; try assumption.
    now apply dispatch_call_tested in Hd.
  - destruct connectedAfterLoop; simpl in Hin; [|contradiction].
    destruct Hin as [Hin|Hin]; [discriminate|contradiction].
Qed.

Lemma calls_have_a_cause_witness :
  let hdr := mkHeader true "POST" "/control/switch"
               [("HOST", "192.0.2.10:49200");
                ("SOAPACTION", "urn:schemas-upnp-org:service:S:1#SetTarget")]
  in
  let r := mkRound false true 10 Success hdr "<Envelope/>" false in
  exists r',
    In r' [r]
    /\ enters_try r'
    /\ tested_before baseEnv incomingControlRequest (requestHeader r')
                     (body r') (prepared baseEnv r').
Proof.
  intros hdr r.
  apply (calls_have_a_cause baseEnv [r] true incomingControlRequest).
  now vm_compute.
Defined.

(** *** A server that overrides nothing *)

Lemma call_not_overridden (env : Env) (h : Incoming)
    (hdr : QHttpRequestHeader) (mi : MessagingInfo) :
  not_overridden env h ->
  call env h hdr mi
  = ([Called h; Sent MethotNotAllowed], Some (tt, setKeepAlive mi false)).
Proof. intros H. unfold call. now rewrite H. Qed.

(** Where the incoming* functions are left as HHttpServer defines them,
    every request that is handed to one of them is answered 405 Method Not
    Allowed and ends the connection, whatever keep-alive the client asked
    for: after the responses receive may have sent, the log shows the call,
    the 405 and the closing of the socket. *)
Theorem not_overridden_answers_405 (env : Env) (pre rest : list Round)
    (r : Round) (connectedAfterLoop : bool) :
  (forall h, not_overridden env h) ->
  Forall (fun r' => goes_on env r' = true) pre ->
  enters_try r ->
  existsb is_call
    (fst (dispatch env (requestHeader r) (body r) (prepared env r))) = true ->
  exists scs h,
    processRequest env (pre ++ r :: rest) connectedAfterLoop
    = (events_of env pre
         ++ (map Sent scs ++ [Called h; Sent MethotNotAllowed])
         ++ closing connectedAfterLoop,
       rest).
Proof.
  intros Hdef Hpre Htry Hcall.
  assert (Hd : exists scs h mi',
    dispatch env (requestHeader r) (body r) (prepared env r)
    = (map Sent scs ++ [Called h; Sent MethotNotAllowed],
       Some (false, setKeepAlive mi' false))).
  { revert Hcall. generalize (prepared env r) as mi.
    generalize (requestHeader r) as hdr. generalize (body r) as b.
    intros b hdr mi. unfold dispatch. rewrite head_condition_false.
    repeat match goal with
    | |- context [if ?c then _ else _] => destruct c
    end;
    rewrite ?processPost_branches;
    unfold processGet, processNotifyMessage, processSubscription,
      processUnsubscription;
    unfold bind, receive_gena;
    repeat match goal with
    | |- context [receiveSubscribe env ?x ?m] =>
        destruct (receiveSubscribe env x m) as [[[? [| |]] [|]] ?]
    | |- context [receiveUnsubscribe env ?x ?m] =>
        destruct (receiveUnsubscribe env x m) as [[[? [| |]] [|]] ?]
    | |- context [receiveNotify env ?x ?y ?m] =>
        destruct (receiveNotify env x y m) as [[[? [| |]] [|]] ?]
    | |- context [if ?c then _ else _] => destruct c
    end;
    unfold ret, send, mi_setKeepAlive;
    rewrite ?call_not_overridden by apply Hdef;
    cbn [fst snd app];
    rewrite ?app_nil_r;
    intros Hcall;
    first
      [ match goal with
        | |- exists scs h mi',
               (map Sent ?l ++ [Called ?h'; _],
                Some (_, setKeepAlive ?m _)) = _ =>
            exists l, h', m; reflexivity
        | |- exists scs h mi',
               ([Called ?h'; _], Some (_, setKeepAlive ?m _)) = _ =>
            exists [], h', m; reflexivity
        end
      | exfalso; revert Hcall; cbn;
        rewrite ?existsb_app;
        repeat match goal with
        | |- context [existsb is_call (map Sent ?l)] =>
            replace (existsb is_call (map Sent l)) with false
              by (induction l; simpl; auto)
        end; cbn; discriminate ]. }
  destruct Hd as (scs & h & mi' & Hd). exists scs, h.
  apply processRequest_breaks; try assumption.
  - now destruct Htry as ([Hg _] & _).
  - now rewrite iteration_enters_try, Hd.
Qed.

Lemma not_overridden_answers_405_witness :
  let host := ("HOST", "192.0.2.10:49200") in
  let idle := mkRound false true 10 Timeout (mkHeader false "" "" []) ""
                      false in
  let r := mkRound false true 20 Success
                   (mkHeader true "SUBSCRIBE" "/event/switch" [host]) ""
                   false in
  exists scs h,
    processRequest baseEnv ([idle] ++ r :: [r]) true
    = (events_of baseEnv [idle]
         ++ (map Sent scs ++ [Called h; Sent MethotNotAllowed])
         ++ closing true,
       [r]).
Proof.
  intros host idle r.
  apply (not_overridden_answers_405 baseEnv [idle] [r] r true).
  - intros h hdr mi. reflexivity.
  - repeat constructor.
  - repeat split; reflexivity.
  - reflexivity.
Defined.

Lemma call_in_log (env : Env) (h : Incoming) (hdr : QHttpRequestHeader)
    (mi : MessagingInfo) :
  In (Called h) (fst (call env h hdr mi)).
Proof.
  unfold call. destruct (incoming env h hdr mi) as [scs [mi'|]]; now left.
Qed.

Ltac find_call :=
  solve [ apply call_in_log
        | apply in_or_app; left; find_call
        | apply in_or_app; right; find_call ].

Ltac open_binds :=
  repeat (progress (rewrite ?bind_fst; cbn [fst snd ret negb])).

Lemma tested_call_dispatched (env : Env) (hdr : QHttpRequestHeader)
    (body : string) (mi : MessagingInfo) (h : Incoming) :
  tested_before env h hdr body mi ->
  In (Called h) (fst (dispatch env hdr body mi)).
Proof.
  destruct h; simpl.
  - intros (Hm & scs & mi' & Hr). rewrite dispatch_subscribe by assumption.
    unfold processSubscription. rewrite !bind_fst. unfold receive_gena.
    rewrite Hr. cbn [fst snd]. open_binds. find_call.
  - intros (Hm & scs & mi' & Hr). rewrite dispatch_unsubscribe by assumption.
    unfold processUnsubscription. rewrite !bind_fst. unfold receive_gena.
    rewrite Hr. cbn [fst snd]. open_binds. find_call.
  - intros (Hm & Hidx & Hsoap & Hpath). rewrite dispatch_post by assumption.
    rewrite processPost_branches.
    destruct (Z.leb_spec (Qt.indexOf (value hdr "SOAPACTION") "#"%char) 0);
      [lia|].
    rewrite Hsoap, Hpath. open_binds. find_call.
  - intros (Hm & scs & mi' & Hr). rewrite dispatch_notify by assumption.
    unfold processNotifyMessage. rewrite !bind_fst. unfold receive_gena.
    rewrite Hr. cbn [fst snd]. open_binds. find_call.
  - contradiction.
  - intros Hm. rewrite dispatch_get by assumption.
    unfold processGet. open_binds. find_call.
  - intros (Hm & Hidx). rewrite dispatch_post by assumption.
    rewrite processPost_branches.
    destruct (Z.leb_spec (Qt.indexOf (value hdr "SOAPACTION") "#"%char) 0);
      [|lia].
    open_binds. find_call.
Qed.

(** For a request in the try block, a virtual function is called exactly
    when the request passes the tests that lead to it: GET for the GET
    hook; POST with no usable SOAPACTION for the unknown-POST hook, POST
    with a SOAPACTION, a SOAP body and a path that is not blank for the
    control hook; NOTIFY, SUBSCRIBE, UNSUBSCRIBE that receive parsed for
    the GENA hooks; nothing for the HEAD hook. *)
Theorem called_iff_tested (env : Env) (hdr : QHttpRequestHeader)
    (body : string) (mi : MessagingInfo) (h : Incoming) :
  existsb (is_call_of h) (fst (dispatch env hdr body mi)) = true
  <-> tested_before env h hdr body mi.
Proof.
  split.
  - intros H. apply existsb_exists in H as (e & Hin & He).
    apply is_call_of_eq in He. subst e.
    now apply dispatch_call_tested in Hin.
  - intros H. apply existsb_exists. exists (Called h). split.
    + now apply tested_call_dispatched.
    + now destruct h.
Qed.


End Connection.

(* ===================================================================== *)
(** ** HServiceSetup *)
(* ===================================================================== *)

Section ServiceSetup.

Import HServiceSetup.

Variables HServiceId HResourceType HService HInclusionRequirement : Type.

(** takeService hands the service over once: after setService(arg) it
    returns [arg] and leaves the instance without a service, so that a
    second takeService returns null; the id, the type, the version and the
    inclusion requirement stay what the setters made them. *)
Theorem takeService_hands_over_once
    (s : @HServiceSetup.t HServiceId HResourceType HService
                          HInclusionRequirement)
    (arg : option HService)
    (id : HServiceId) (type : HResourceType) (v : Z)
    (req : HInclusionRequirement) :
  let configured :=
    setInclusionRequirement req
      (setVersion v (setServiceType type (setServiceId id
         (setService arg s)))) in
  let taken := takeService configured in
  fst taken = arg
  /\ service (snd taken) = None
  /\ fst (takeService (snd taken)) = None
  /\ serviceId (snd taken) = id
  /\ serviceType (snd taken) = type
  /\ version (snd taken) = v
  /\ inclusionRequirement (snd taken) = req.
Proof. repeat split. Qed.

End ServiceSetup.
